(** * Multi-step integrate-and-fire neuron: Triton kernels and their host wrappers

    Shallow embedding of
    [spikingjelly/activation_based/triton_kernel/neuron_kernel/integrate_and_fire.py].

    The two [@triton.jit] kernels are written in a small state monad over a
    heap of flat, row-major buffers.  Every program instance works on
    [1 x BLOCK_NCL] blocks obtained through block pointers; loads are
    boundary-checked on the channel axis with zero padding, stores are
    boundary-checked on the channel axis.  The heap also records every
    element that a load or a store really touches. *)

From Stdlib Require Import ZArith Lia.
From stdpp Require Import base decidable option list.

(** ** Element types

    The kernels are generic in [dtype].  An element type provides the
    arithmetic the kernels use; [ffma a b c] is Triton's fused
    multiply-add [tl.fma(a, b, c)], the value of [a * b + c]. *)

Class Dtype := {
  val : Type;
  fzero : val;
  fone : val;
  fadd : val → val → val;
  fsub : val → val → val;
  fmul : val → val → val;
  ffma : val → val → val → val;
  fge : val → val → bool;
}.

(** An element type computes exactly when its fused multiply-add is the
    product followed by the sum (true of exact arithmetic; a rounding float
    type rounds once in [ffma] and twice in the right-hand side). *)
Definition fma_exact (D : Dtype) : Prop :=
  ∀ a b c : val, ffma a b c = fadd c (fmul a b).

(** Exact integer arithmetic, used to run the kernels on concrete data. *)
#[export] Instance Z_dtype : Dtype := {|
  val := Z;
  fzero := 0%Z;
  fone := 1%Z;
  fadd := Z.add;
  fsub := Z.sub;
  fmul := Z.mul;
  ffma := fun a b c => (a * b + c)%Z;
  fge := fun a b => (b <=? a)%Z;
|}.

(** ** Buffers, heap and access log *)

Inductive buffer :=
  | x_seq_buf | v_init_buf | s_seq_buf | h_seq_buf | v_seq_buf
  | grad_s_seq_buf | grad_v_seq_buf | grad_x_seq_buf | grad_v_init_buf.

#[export] Instance buffer_eq_dec : EqDecision buffer.
Proof. solve_decision. Defined.

(** One element of [acc_buf], at row [acc_row] and column [acc_col] of the
    tensor the block pointer describes, read or written. *)
Record access := Access {
  acc_write : bool;
  acc_buf : buffer;
  acc_row : nat;
  acc_col : nat;
}.

(** [tl.make_block_ptr(base, shape, strides, offsets, block_shape, order)].
    [order] is a layout hint without meaning for the values and is left
    out. *)
Record block_ptr := make_block_ptr {
  base : buffer;
  shape : nat * nat;
  strides : nat * nat;
  offsets : nat * nat;
  block_shape : nat * nat;
}.

(** [range(start, stop, step)] as [tl.static_range] unrolls it. *)
Definition static_range (start stop step : Z) : list Z :=
  let n :=
    if (0 <? step)%Z then ((stop - start + step - 1) / step)%Z
    else if (step <? 0)%Z then ((start - stop - step - 1) / (- step))%Z
    else 0%Z in
  map (fun k => (start + Z.of_nat k * step)%Z) (seq 0 (Z.to_nat n)).

(** [triton.cdiv(a, b)] *)
Definition cdiv (a b : nat) : nat := (a + b - 1) / b.

Section Kernels.
Context {D : Dtype}.

Record state := State {
  heap : buffer → list val;
  log : list access;
}.

Definition upd (h : buffer → list val) (b : buffer) (l : list val)
  : buffer → list val :=
  fun b' => if decide (b' = b) then l else h b'.

(** *** The program monad *)

Definition M (A : Type) : Type := state → A * state.

#[export] Instance M_ret : MRet M := λ A a st, (a, st).

#[export] Instance M_bind : MBind M :=
  λ A B k m st, let '(a, st') := m st in k a st'.

Definition exec {A} (m : M A) (st : state) : state := snd (m st).

(** A loop over an unrolled range, threading the loop-carried value. *)
Fixpoint for_range {A} (ts : list Z) (body : Z → A → M A) (a : A) : M A :=
  match ts with
  | [] => mret a
  | t :: ts' => a' ← body t a; for_range ts' body a'
  end.

(** *** Blocks

    A [1 x BLOCK_NCL] block is the list of its lanes.  Scalars broadcast
    over the lanes. *)

Definition tl_zeros (n : nat) : list val := replicate n fzero.

Definition badd (a b : list val) : list val := zip_with fadd a b.
Definition bmul (a b : list val) : list val := zip_with fmul a b.
Definition bsub (a b : list val) : list val := zip_with fsub a b.
(** block * scalar, scalar * block, scalar - block, block - scalar *)
Definition bmul_s (a : list val) (c : val) : list val := (λ e, fmul e c) <$> a.
Definition smul_b (c : val) (a : list val) : list val := fmul c <$> a.
Definition ssub_b (c : val) (a : list val) : list val := fsub c <$> a.
Definition bsub_s (a : list val) (c : val) : list val := (λ e, fsub e c) <$> a.
(** [(a >= c).to(dtype)] *)
Definition of_bool (b : bool) : val := if b then fone else fzero.
Definition bge_s_to_dtype (a : list val) (c : val) : list val :=
  (λ e, of_bool (fge e c)) <$> a.

Fixpoint zip_with3 {A B C E} (f : A → B → C → E)
    (a : list A) (b : list B) (c : list C) : list E :=
  match a, b, c with
  | x :: a', y :: b', z :: c' => f x y z :: zip_with3 f a' b' c'
  | _, _, _ => []
  end.

Definition tl_fma (a b c : list val) : list val := zip_with3 ffma a b c.

(** [x.to(dtype)] on a block whose elements already have type [dtype]. *)
Definition to_dtype (a : list val) : list val := a.

(** *** Loads and stores through block pointers

    Only the channel axis (dimension 1) is boundary-checked, as in
    [boundary_check=(1,)]. *)

Definition lane_col (p : block_ptr) (i : nat) : nat := (offsets p).2 + i.

Definition lane_addr (p : block_ptr) (i : nat) : nat :=
  (offsets p).1 * (strides p).1 + lane_col p i * (strides p).2.

Definition lane_ok (p : block_ptr) (i : nat) : bool :=
  bool_decide (lane_col p i < (shape p).2).

Definition lanes (p : block_ptr) : list nat := seq 0 (block_shape p).2.

(** One lane of a load: the value and the element it touches, if any. *)
Definition load_lane (buf : list val) (p : block_ptr) (i : nat)
  : val * list access :=
  if lane_ok p i then
    (default fzero (buf !! lane_addr p i),
     [Access false (base p) (offsets p).1 (lane_col p i)])
  else (fzero, []).

(** [tl.load(p, boundary_check=(1,), padding_option="zero")] *)
Definition tl_load (p : block_ptr) : M (list val) :=
  fun st =>
    let r := load_lane (heap st (base p)) p <$> lanes p in
    (fst <$> r, State (heap st) (log st ++ concat (snd <$> r))).

(** The lanes of a store, from lane [i] on: an in-range lane writes its
    element, an out-of-range lane does nothing. *)
Fixpoint store_lanes (p : block_ptr) (i : nat) (vs : list val)
    (m : list val * list access) : list val * list access :=
  match vs with
  | [] => m
  | v :: vs' =>
      store_lanes p (S i) vs'
        (if lane_ok p i then
           (<[lane_addr p i := v]> m.1,
            m.2 ++ [Access true (base p) (offsets p).1 (lane_col p i)])
         else m)
  end.

(** [tl.store(p, value, boundary_check=(1,))] *)
Definition tl_store (p : block_ptr) (value : list val) : M unit :=
  fun st =>
    let m := store_lanes p 0 value (heap st (base p), log st) in
    (tt, State (upd (heap st) (base p) m.1) m.2).

(** *** The forward kernel

    [h_seq_ptr] is [None] when the host passes Python's [None]; the store
    through it sits under [save_intermediates], which the host sets exactly
    when it passes a buffer.  [BLOCK_NCL] is the value the autotuner picks
    among its configurations; [pid_ncl] is [tl.program_id(0)]. *)

Definition _multistep_if_forward_kernel
    (x_seq_ptr v_init_ptr s_seq_ptr : buffer) (h_seq_ptr : option buffer)
    (v_seq_ptr : buffer) (v_threshold v_reset : val)
    (T NCL BLOCK_NCL : nat) (soft_reset save_intermediates : bool)
    (pid_ncl : nat) : M unit :=
  let ncl_offset := pid_ncl * BLOCK_NCL in
  let v_init_ptrs :=
    make_block_ptr v_init_ptr (1, NCL) (NCL, 1) (0, ncl_offset)
                   (1, BLOCK_NCL) in
  v ← tl_load v_init_ptrs;
  for_range (static_range 0 (Z.of_nat T) 1) (fun t v =>
    let x_ptrs :=
      make_block_ptr x_seq_ptr (T, NCL) (NCL, 1) (Z.to_nat t, ncl_offset)
                     (1, BLOCK_NCL) in
    x ← tl_load x_ptrs;
    let h := badd v x in
    let s := bge_s_to_dtype h v_threshold in
    let v :=
      if soft_reset then bsub h (bmul_s s v_threshold)
      else badd (bmul_s s v_reset) (bmul (ssub_b fone s) h) in
    let s_ptrs :=
      make_block_ptr s_seq_ptr (T, NCL) (NCL, 1) (Z.to_nat t, ncl_offset)
                     (1, BLOCK_NCL) in
    tl_store s_ptrs s;;
    let v_ptrs :=
      make_block_ptr v_seq_ptr (T, NCL) (NCL, 1) (Z.to_nat t, ncl_offset)
                     (1, BLOCK_NCL) in
    tl_store v_ptrs v;;
    (if save_intermediates then
       match h_seq_ptr with
       | Some h_seq_ptr =>
           let h_ptrs :=
             make_block_ptr h_seq_ptr (T, NCL) (NCL, 1)
                            (Z.to_nat t, ncl_offset) (1, BLOCK_NCL) in
           tl_store h_ptrs h
       | None => mret tt
       end
     else mret tt);;
    mret v) v;;
  mret tt.

(** *** The backward kernel

    [sg_fn] is the surrogate-gradient function, applied to every lane. *)

Definition _multistep_if_backward_kernel
    (grad_s_seq_ptr grad_v_seq_ptr h_seq_ptr grad_x_seq_ptr
       grad_v_init_ptr : buffer)
    (v_threshold v_reset : val) (T NCL BLOCK_NCL : nat)
    (sg_fn : val → val) (soft_reset detach_reset : bool)
    (pid_ncl : nat) : M unit :=
  let ncl_offset := pid_ncl * BLOCK_NCL in
  let grad_v_acc := tl_zeros BLOCK_NCL in
  grad_v_acc ←
    for_range (static_range (Z.of_nat T - 1) (-1) (-1)) (fun t grad_v_acc =>
      let grad_s_ptrs :=
        make_block_ptr grad_s_seq_ptr (T, NCL) (NCL, 1)
                       (Z.to_nat t, ncl_offset) (1, BLOCK_NCL) in
      grad_s ← tl_load grad_s_ptrs;
      let grad_v_ptrs :=
        make_block_ptr grad_v_seq_ptr (T, NCL) (NCL, 1)
                       (Z.to_nat t, ncl_offset) (1, BLOCK_NCL) in
      grad_v ← tl_load grad_v_ptrs;
      let h_ptrs :=
        make_block_ptr h_seq_ptr (T, NCL) (NCL, 1)
                       (Z.to_nat t, ncl_offset) (1, BLOCK_NCL) in
      h ← tl_load h_ptrs;
      let sg := sg_fn <$> bsub_s h v_threshold in
      let grad_v_combined := badd grad_v grad_v_acc in
      let grad_h :=
        if soft_reset then
          if detach_reset then tl_fma grad_s sg grad_v_combined
          else
            tl_fma (bsub grad_s (smul_b v_threshold grad_v_combined)) sg
                   grad_v_combined
        else
          let s := bge_s_to_dtype h v_threshold in
          if detach_reset then
            tl_fma grad_s sg (bmul grad_v_combined (ssub_b fone s))
          else
            tl_fma (tl_fma grad_v_combined (ssub_b v_reset h) grad_s) sg
                   (bmul grad_v_combined (ssub_b fone s)) in
      let grad_v_acc := grad_h in
      let grad_x := grad_h in
      let grad_x_ptrs :=
        make_block_ptr grad_x_seq_ptr (T, NCL) (NCL, 1)
                       (Z.to_nat t, ncl_offset) (1, BLOCK_NCL) in
      tl_store grad_x_ptrs (to_dtype grad_x);;
      mret grad_v_acc) grad_v_acc;
  let grad_v_init_ptrs :=
    make_block_ptr grad_v_init_ptr (1, NCL) (NCL, 1) (0, ncl_offset)
                   (1, BLOCK_NCL) in
  tl_store grad_v_init_ptrs (to_dtype grad_v_acc).

(** *** Launching a kernel over the grid

    [kernel[grid](...)] runs one program instance per index below [grid].
    The instances share no state but the heap; [sched] lists them in the
    order in which the device happens to run them. *)

Fixpoint launch (sched : list nat) (kernel : nat → M unit) : M unit :=
  match sched with
  | [] => mret tt
  | pid :: sched' => kernel pid;; launch sched' kernel
  end.

(** *** Host side

    A contiguous tensor: the length of its first axis, the number of
    elements of one slice [x[0]] and the flat row-major data. *)

Record tensor := Tensor {
  shape0 : nat;
  numel0 : nat;
  data : list val;
}.

Definition wf_tensor (x : tensor) : Prop :=
  length (data x) = shape0 x * numel0 x.

(** [x[0]]: indexing an empty first axis raises [IndexError] ([None]). *)
Definition first_slice (x : tensor) : option (list val) :=
  if decide (shape0 x = 0) then None else Some (take (numel0 x) (data x)).

(** [x[0].numel()] *)
Definition first_numel (x : tensor) : option nat :=
  _ ← first_slice x; Some (numel0 x).

(** What the host does not decide: the block size the autotuner picks, the
    order in which the device runs the program instances and the contents
    of freshly allocated, uninitialised memory. *)
Record launch_env := LaunchEnv {
  BLOCK_NCL : nat;
  sched : nat → list nat;
  uninit : buffer → nat → val;
}.

(** [torch.empty_like]: same shape, arbitrary contents. *)
Definition empty_data (e : launch_env) (b : buffer) (n : nat) : list val :=
  uninit e b <$> seq 0 n.

Definition empty_like (e : launch_env) (b : buffer) (x : tensor) : tensor :=
  Tensor (shape0 x) (numel0 x) (empty_data e b (shape0 x * numel0 x)).

Definition multistep_if_inference (e : launch_env)
    (x_seq : tensor) (v_init : list val)
    (v_threshold v_reset : val) (soft_reset : bool)
  : option (tensor * tensor) :=
  let T := shape0 x_seq in
  NCL ← first_numel x_seq;
  let s_seq := empty_like e s_seq_buf x_seq in
  let v_seq := empty_like e v_seq_buf x_seq in
  let grid := cdiv NCL (BLOCK_NCL e) in
  let st := State (λ b, match b with
                        | x_seq_buf => data x_seq
                        | v_init_buf => v_init
                        | s_seq_buf => data s_seq
                        | v_seq_buf => data v_seq
                        | _ => []
                        end) [] in
  let st' :=
    exec (launch (sched e grid)
            (_multistep_if_forward_kernel
               x_seq_buf v_init_buf s_seq_buf None v_seq_buf
               v_threshold v_reset T NCL (BLOCK_NCL e) soft_reset false))
         st in
  Some (Tensor (shape0 s_seq) (numel0 s_seq) (heap st' s_seq_buf),
        Tensor (shape0 v_seq) (numel0 v_seq) (heap st' v_seq_buf)).

Definition multistep_if_forward (e : launch_env)
    (x_seq : tensor) (v_init : list val)
    (v_threshold v_reset : val) (soft_reset : bool)
  : option (tensor * tensor * tensor) :=
  let T := shape0 x_seq in
  NCL ← first_numel x_seq;
  let s_seq := empty_like e s_seq_buf x_seq in
  let v_seq := empty_like e v_seq_buf x_seq in
  let h_seq := empty_like e h_seq_buf x_seq in
  let grid := cdiv NCL (BLOCK_NCL e) in
  let st := State (λ b, match b with
                        | x_seq_buf => data x_seq
                        | v_init_buf => v_init
                        | s_seq_buf => data s_seq
                        | h_seq_buf => data h_seq
                        | v_seq_buf => data v_seq
                        | _ => []
                        end) [] in
  let st' :=
    exec (launch (sched e grid)
            (_multistep_if_forward_kernel
               x_seq_buf v_init_buf s_seq_buf (Some h_seq_buf) v_seq_buf
               v_threshold v_reset T NCL (BLOCK_NCL e) soft_reset true))
         st in
  Some (Tensor (shape0 s_seq) (numel0 s_seq) (heap st' s_seq_buf),
        Tensor (shape0 v_seq) (numel0 v_seq) (heap st' v_seq_buf),
        Tensor (shape0 h_seq) (numel0 h_seq) (heap st' h_seq_buf)).

Definition multistep_if_backward (e : launch_env)
    (grad_s_seq grad_v_seq h_seq : tensor)
    (v_threshold v_reset : val) (sg_fn : val → val)
    (soft_reset detach_reset : bool)
  : option (tensor * list val) :=
  let T := shape0 grad_s_seq in
  NCL ← first_numel grad_s_seq;
  let grad_x_seq := empty_like e grad_x_seq_buf grad_s_seq in
  grad_v_seq_0 ← first_slice grad_v_seq;
  let grad_v_init := empty_data e grad_v_init_buf (length grad_v_seq_0) in
  let grid := cdiv NCL (BLOCK_NCL e) in
  let st := State (λ b, match b with
                        | grad_s_seq_buf => data grad_s_seq
                        | grad_v_seq_buf => data grad_v_seq
                        | h_seq_buf => data h_seq
                        | grad_x_seq_buf => data grad_x_seq
                        | grad_v_init_buf => grad_v_init
                        | _ => []
                        end) [] in
  let st' :=
    exec (launch (sched e grid)
            (_multistep_if_backward_kernel
               grad_s_seq_buf grad_v_seq_buf h_seq_buf grad_x_seq_buf
               grad_v_init_buf v_threshold v_reset T NCL (BLOCK_NCL e)
               sg_fn soft_reset detach_reset))
         st in
  Some (Tensor (shape0 grad_x_seq) (numel0 grad_x_seq)
               (heap st' grad_x_seq_buf),
        heap st' grad_v_init_buf).

(** The launch environment the host code relies on: a positive block size
    and every program instance of a grid run once. *)
Definition env_ok (e : launch_env) : Prop :=
  0 < BLOCK_NCL e ∧ ∀ grid, sched e grid ≡ₚ seq 0 grid.

(** *** [MultiStepIFNodePTT]

    The autograd context: which forward inputs need a gradient, the saved
    tensors and the attributes set by [forward] (unset: [None]). *)

Record context := Context {
  needs_input_grad : list bool;
  saved_tensors : list tensor;
  ctx_v_threshold : option val;
  ctx_v_reset : option val;
  ctx_soft_reset : option bool;
  ctx_detach_reset : option bool;
  ctx_sg_fn : option (val → val);
}.

(** [forward]; [v_reset = None] is Python's [None].  The decorators
    (contiguity and device guard, autocast) do not change values in one
    element type and are left out. *)
Definition forward (e : launch_env) (ctx : context)
    (x_seq : tensor) (v_init : list val) (v_threshold : val)
    (v_reset : option val) (detach_reset : bool) (sg_fn : val → val)
  : option (tensor * tensor * context) :=
  let soft_reset := bool_decide (v_reset = None) in
  let v_reset := match v_reset with Some r => r | None => fzero end in
  if existsb id (needs_input_grad ctx) then
    '(s_seq, v_seq, h_seq) ←
      multistep_if_forward e x_seq v_init v_threshold v_reset soft_reset;
    let ctx :=
      Context (needs_input_grad ctx) [h_seq] (Some v_threshold)
              (Some v_reset) (Some soft_reset) (Some detach_reset)
              (Some sg_fn) in
    Some (s_seq, v_seq, ctx)
  else
    '(s_seq, v_seq) ←
      multistep_if_inference e x_seq v_init v_threshold v_reset soft_reset;
    Some (s_seq, v_seq, ctx).

(** [backward] returns one gradient per input of [forward]; [None] marks
    an input without gradient. *)
Definition backward (e : launch_env) (ctx : context)
    (grad_s_seq grad_v_seq : tensor)
  : option (option tensor * option (list val) * option val * option val
            * option bool * option (val → val)) :=
  h_seq ← saved_tensors ctx !! 0;
  v_threshold ← ctx_v_threshold ctx;
  v_reset ← ctx_v_reset ctx;
  sg_fn ← ctx_sg_fn ctx;
  soft_reset ← ctx_soft_reset ctx;
  detach_reset ← ctx_detach_reset ctx;
  '(grad_x_seq, grad_v_init) ←
    multistep_if_backward e grad_s_seq grad_v_seq h_seq v_threshold v_reset
                          sg_fn soft_reset detach_reset;
  Some (Some grad_x_seq, Some grad_v_init, None, None, None, None).

End Kernels.

(** * Verification *)

(** ** Ranges and grids *)

Lemma static_range_up (T : nat) :
  static_range 0 (Z.of_nat T) 1 = Z.of_nat <$> seq 0 T.
Proof.
  unfold static_range. simpl.
  replace (Z.of_nat T - 0 + 1 - 1)%Z with (Z.of_nat T) by lia.
  rewrite Z.div_1_r, Nat2Z.id.
  apply map_ext. intros k. lia.
Qed.

Lemma static_range_down (T : nat) :
  static_range (Z.of_nat T - 1) (-1) (-1)
  = (λ k, Z.of_nat (T - 1 - k)) <$> seq 0 T.
Proof.
  unfold static_range. simpl.
  replace (Z.of_nat T - 1 - -1 - -1 - 1)%Z with (Z.of_nat T) by lia.
  rewrite Z.div_1_r, Nat2Z.id.
  apply map_ext_in. intros k Hk. apply in_seq in Hk. lia.
Qed.

Lemma static_range_up_lookup (T k : nat) (t : Z) :
  static_range 0 (Z.of_nat T) 1 !! k = Some t → k < T ∧ Z.to_nat t = k.
Proof.
  rewrite static_range_up, list_lookup_fmap.
  destruct (seq 0 T !! k) as [j|] eqn:E; simpl; [|done].
  apply lookup_seq in E as [-> ?]. intros [= <-]. lia.
Qed.

Lemma static_range_down_lookup (T k : nat) (t : Z) :
  static_range (Z.of_nat T - 1) (-1) (-1) !! k = Some t →
  k < T ∧ Z.to_nat t = T - 1 - k.
Proof.
  rewrite static_range_down, list_lookup_fmap.
  destruct (seq 0 T !! k) as [j|] eqn:E; simpl; [|done].
  apply lookup_seq in E as [-> ?]. intros [= <-]. lia.
Qed.

Lemma static_range_up_length (T : nat) :
  length (static_range 0 (Z.of_nat T) 1) = T.
Proof. by rewrite static_range_up, length_fmap, length_seq. Qed.

Lemma static_range_down_length (T : nat) :
  length (static_range (Z.of_nat T - 1) (-1) (-1)) = T.
Proof. by rewrite static_range_down, length_fmap, length_seq. Qed.

(** Every channel lies in the block of exactly one program of the grid. *)
Lemma block_of_channel (B pid n : nat) :
  0 < B → (pid * B ≤ n < pid * B + B ↔ n / B = pid).
Proof.
  intros HB. split.
  - intros [H1 H2]. symmetry. apply (Nat.div_unique n B pid (n - pid * B)); lia.
  - intros <-. pose proof (Nat.div_mod_eq n B).
    pose proof (Nat.mod_upper_bound n B). lia.
Qed.

Lemma channel_in_grid (N B n : nat) : 0 < B → n < N → n / B < cdiv N B.
Proof.
  intros HB Hn. unfold cdiv.
  apply Nat.Div0.div_lt_upper_bound.
  pose proof (Nat.div_mod_eq (N + B - 1) B).
  pose proof (Nat.mod_upper_bound (N + B - 1) B). nia.
Qed.

(** Row-major addresses of in-range columns determine row and column. *)
Lemma row_col_inj (N t n t' n' : nat) :
  n < N → n' < N → t * N + n = t' * N + n' → t = t' ∧ n = n'.
Proof. intros. assert (t = t') by nia. subst. lia. Qed.

Section Blocks.
Context {D : Dtype}.
Implicit Types (a b c : nat → val) (l : list nat) (buf : list val).

(** ** Blocks as lane functions

    Every block a kernel computes is a function of the lane index mapped
    over the lanes; the element-wise operations act on that function. *)

Lemma zip_with_lanes {A B C} (op : A → B → C) (f : nat → A) (g : nat → B) l :
  zip_with op (f <$> l) (g <$> l) = (λ i, op (f i) (g i)) <$> l.
Proof. induction l as [|i l IH]; csimpl; [done|]. by rewrite IH. Qed.

Lemma zip_with3_lanes {A B C E} (op : A → B → C → E)
    (f : nat → A) (g : nat → B) (h : nat → C) l :
  zip_with3 op (f <$> l) (g <$> l) (h <$> l)
  = (λ i, op (f i) (g i) (h i)) <$> l.
Proof. induction l as [|i l IH]; csimpl; [done|]. by rewrite IH. Qed.

Lemma fmap_lanes {A B} (op : A → B) (f : nat → A) l :
  op <$> (f <$> l) = (λ i, op (f i)) <$> l.
Proof. by rewrite <- list_fmap_compose. Qed.

Lemma tl_zeros_lanes n : tl_zeros n = (λ _, fzero) <$> seq 0 n.
Proof.
  unfold tl_zeros. generalize 0.
  induction n as [|n IH]; intros k; csimpl; [done|]. by rewrite (IH (S k)).
Qed.

Lemma badd_lanes a b l : badd (a <$> l) (b <$> l) = (λ i, fadd (a i) (b i)) <$> l.
Proof. apply zip_with_lanes. Qed.
Lemma bsub_lanes a b l : bsub (a <$> l) (b <$> l) = (λ i, fsub (a i) (b i)) <$> l.
Proof. apply zip_with_lanes. Qed.
Lemma bmul_lanes a b l : bmul (a <$> l) (b <$> l) = (λ i, fmul (a i) (b i)) <$> l.
Proof. apply zip_with_lanes. Qed.
Lemma tl_fma_lanes a b c l :
  tl_fma (a <$> l) (b <$> l) (c <$> l) = (λ i, ffma (a i) (b i) (c i)) <$> l.
Proof. apply zip_with3_lanes. Qed.
Lemma bmul_s_lanes a (x : val) l : bmul_s (a <$> l) x = (λ i, fmul (a i) x) <$> l.
Proof. apply fmap_lanes. Qed.
Lemma smul_b_lanes a (x : val) l : smul_b x (a <$> l) = (λ i, fmul x (a i)) <$> l.
Proof. apply fmap_lanes. Qed.
Lemma ssub_b_lanes a (x : val) l : ssub_b x (a <$> l) = (λ i, fsub x (a i)) <$> l.
Proof. apply fmap_lanes. Qed.
Lemma bsub_s_lanes a (x : val) l : bsub_s (a <$> l) x = (λ i, fsub (a i) x) <$> l.
Proof. apply fmap_lanes. Qed.
Lemma bge_s_to_dtype_lanes a (x : val) l :
  bge_s_to_dtype (a <$> l) x = (λ i, of_bool (fge (a i) x)) <$> l.
Proof. apply (fmap_lanes (λ e, of_bool (fge e x))). Qed.

(** ** Loads and stores, values and accesses apart *)

(** The elements the in-range lanes [i .. i + n) of a load or store
    touch. *)
Definition touched_from (w : bool) (p : block_ptr) (i n : nat) : list access :=
  (λ i, Access w (base p) (offsets p).1 (lane_col p i))
    <$> filter (λ i, lane_ok p i = true) (seq i n).

Definition touched (w : bool) (p : block_ptr) : list access :=
  touched_from w p 0 (block_shape p).2.

Definition load_val (buf : list val) (p : block_ptr) (i : nat) : val :=
  if lane_ok p i then default fzero (buf !! lane_addr p i) else fzero.

Fixpoint store_vals (p : block_ptr) (i : nat) (vs : list val)
    (buf : list val) : list val :=
  match vs with
  | [] => buf
  | v :: vs' =>
      store_vals p (S i) vs'
        (if lane_ok p i then <[lane_addr p i := v]> buf else buf)
  end.

Lemma load_lanes_val buf p l :
  (load_lane buf p <$> l).*1 = load_val buf p <$> l.
Proof.
  rewrite <- list_fmap_compose. apply list_fmap_ext. intros _ i _. simpl.
  unfold load_lane, load_val. by destruct (lane_ok p i).
Qed.

Lemma load_lanes_log buf p i n :
  concat ((load_lane buf p <$> seq i n).*2) = touched_from false p i n.
Proof.
  unfold touched_from. revert i.
  induction n as [|n IH]; intros i; csimpl; [done|].
  rewrite IH. unfold load_lane. rewrite filter_cons.
  destruct (lane_ok p i); by simplify_option_eq.
Qed.

Lemma store_lanes_split p i vs buf lg :
  store_lanes p i vs (buf, lg)
  = (store_vals p i vs buf, lg ++ touched_from true p i (length vs)).
Proof.
  unfold touched_from. revert i buf lg.
  induction vs as [|v vs IH]; intros i buf lg; csimpl.
  - by rewrite app_nil_r.
  - rewrite filter_cons. destruct (lane_ok p i) eqn:E; simpl.
    + rewrite IH. simplify_option_eq. by rewrite <- (assoc_L (++)).
    + rewrite IH. by simplify_option_eq.
Qed.

Lemma tl_load_split p st :
  tl_load p st
  = (load_val (heap st (base p)) p <$> lanes p,
     State (heap st) (log st ++ touched false p)).
Proof.
  unfold tl_load, touched, lanes. simpl.
  by rewrite load_lanes_val, load_lanes_log.
Qed.

Lemma tl_store_split p value st :
  length value = (block_shape p).2 →
  tl_store p value st
  = (tt, State (upd (heap st) (base p) (store_vals p 0 value (heap st (base p))))
               (log st ++ touched true p)).
Proof.
  intros Hlen. unfold tl_store, touched.
  by rewrite store_lanes_split, Hlen.
Qed.

(** ** Loads *)

(** The element at row [t], column [n] of a row-major buffer with [N]
    columns as a boundary-checked, zero-padded load sees it. *)
Definition rd (buf : list val) (N t n : nat) : val :=
  if bool_decide (n < N) then default fzero (buf !! (t * N + n)) else fzero.

Lemma load_val_rd buf (bs : buffer) (T N t off B i : nat) :
  load_val buf (make_block_ptr bs (T, N) (N, 1) (t, off) (1, B)) i
  = rd buf N t (off + i).
Proof.
  unfold load_val, rd, lane_ok, lane_addr, lane_col. simpl.
  by rewrite Nat.mul_1_r.
Qed.

Lemma load_lanes_rd buf (bs : buffer) (T N t off B : nat) :
  load_val buf (make_block_ptr bs (T, N) (N, 1) (t, off) (1, B))
    <$> lanes (make_block_ptr bs (T, N) (N, 1) (t, off) (1, B))
  = (λ i, rd buf N t (off + i)) <$> seq 0 B.
Proof. apply list_fmap_ext. intros _ i _. apply load_val_rd. Qed.

Lemma rd_padding buf N t n : N ≤ n → rd buf N t n = fzero.
Proof. intros. unfold rd. rewrite bool_decide_eq_false_2; [done|lia]. Qed.

(** ** Stores *)

Lemma store_vals_length p i (vs : list val) buf :
  length (store_vals p i vs buf) = length buf.
Proof.
  revert i buf. induction vs as [|v vs IH]; intros i buf; simpl; [done|].
  rewrite IH. destruct (lane_ok p i); [apply length_insert|done].
Qed.

(** A store changes nothing but the addresses of its in-range lanes. *)
Lemma store_vals_miss p i0 (vs : list val) buf k :
  (∀ i, i0 ≤ i < i0 + length vs → lane_ok p i = true → lane_addr p i ≠ k) →
  store_vals p i0 vs buf !! k = buf !! k.
Proof.
  revert i0 buf. induction vs as [|v vs IH]; intros i0 buf Hne; simpl; [done|].
  rewrite IH.
  - destruct (lane_ok p i0) eqn:Hok; [|done].
    apply list_lookup_insert_ne. apply Hne; [simpl; lia|done].
  - intros i Hi. apply Hne. simpl. lia.
Qed.

Lemma store_vals_hit p i0 (vs : list val) buf i :
  0 < (strides p).2 →
  i0 ≤ i → lane_ok p i = true → lane_addr p i < length buf →
  store_vals p i0 vs buf !! lane_addr p i
  = match vs !! (i - i0) with
    | Some v => Some v
    | None => buf !! lane_addr p i
    end.
Proof.
  intros Hs. revert i0 buf.
  induction vs as [|v vs IH]; intros i0 buf Hi Hok Hlen; simpl; [done|].
  destruct (decide (i = i0)) as [->|Hne].
  - rewrite Nat.sub_diag. simpl. rewrite store_vals_miss.
    + rewrite Hok. by apply list_lookup_insert_eq.
    + intros j Hj _. unfold lane_addr, lane_col. nia.
  - rewrite IH; [|lia|done|].
    + replace (i - i0) with (S (i - S i0)) by lia.
      change ((v :: vs) !! S (i - S i0)) with (vs !! (i - S i0)).
      destruct (vs !! (i - S i0)); [done|].
      destruct (lane_ok p i0); [|done].
      apply list_lookup_insert_ne. unfold lane_addr, lane_col. nia.
    + destruct (lane_ok p i0); [by rewrite length_insert|done].
Qed.

(** Storing a block at row [t], channels [off .. off + B), of a row-major
    buffer with [N] columns, seen from an in-range element. *)
Lemma store_row_lookup buf (bs : buffer) (T N t off B : nat)
    (G : nat → val) (t' n : nat) :
  n < N → t' * N + n < length buf →
  store_vals (make_block_ptr bs (T, N) (N, 1) (t, off) (1, B)) 0
              ((λ i, G (off + i)) <$> seq 0 B) buf !! (t' * N + n)
  = if decide (t' = t ∧ off ≤ n < off + B) then Some (G n)
    else buf !! (t' * N + n).
Proof.
  intros Hn Hlen. set (p := make_block_ptr _ _ _ _ _).
  destruct (decide _) as [[-> [H1 H2]]|Hno].
  - assert (Haddr : lane_addr p (n - off) = t * N + n).
    { unfold lane_addr, lane_col, p. simpl. lia. }
    rewrite <- Haddr. rewrite store_vals_hit.
    + rewrite Nat.sub_0_r, list_lookup_fmap, lookup_seq_lt by lia. simpl.
      f_equal. f_equal. lia.
    + simpl. lia.
    + lia.
    + unfold lane_ok, lane_col, p. simpl. apply bool_decide_eq_true. lia.
    + by rewrite Haddr.
  - apply store_vals_miss. intros i Hi Hok.
    rewrite length_fmap, length_seq in Hi.
    unfold lane_ok, lane_col, p in Hok. simpl in Hok.
    apply bool_decide_eq_true in Hok.
    unfold lane_addr, lane_col, p. simpl. intros Heq.
    assert (t * N + (off + i) = t' * N + n) as Heq' by lia.
    apply row_col_inj in Heq' as [-> <-]; [|done..]. apply Hno. lia.
Qed.

End Blocks.

(** ** The recurrences along one channel

    What one lane of a program instance computes, step by step: the lane
    functions of the blocks in the two kernel loops. *)

Section Recurrence.
Context {D : Dtype}.
Variables (v_threshold v_reset : val) (soft_reset : bool).

Definition spike (h : val) : val := of_bool (fge h v_threshold).

Definition reset (h : val) : val :=
  if soft_reset then fsub h (fmul (spike h) v_threshold)
  else fadd (fmul (spike h) v_reset) (fmul (fsub fone (spike h)) h).

Variables (sg_fn : val → val) (detach_reset : bool).

Definition grad_h_lane (grad_s grad_v h grad_v_acc : val) : val :=
  let sg := sg_fn (fsub h v_threshold) in
  let grad_v_combined := fadd grad_v grad_v_acc in
  if soft_reset then
    if detach_reset then ffma grad_s sg grad_v_combined
    else ffma (fsub grad_s (fmul v_threshold grad_v_combined)) sg
              grad_v_combined
  else
    let s := spike h in
    if detach_reset then
      ffma grad_s sg (fmul grad_v_combined (fsub fone s))
    else
      ffma (ffma grad_v_combined (fsub v_reset h) grad_s) sg
           (fmul grad_v_combined (fsub fone s)).

(** The same gradient as section 4.2 of the specification writes it, from
    the combined gradient, the surrogate slope [sg] and the spike [s]. *)
Definition spec_dH (dS combined sg s h : val) : val :=
  match soft_reset, detach_reset with
  | true, true => fadd combined (fmul dS sg)
  | true, false =>
      fadd combined (fmul (fsub dS (fmul v_threshold combined)) sg)
  | false, true => fadd (fmul combined (fsub fone s)) (fmul dS sg)
  | false, false =>
      fadd (fmul combined (fsub fone s))
           (fmul (fadd dS (fmul combined (fsub v_reset h))) sg)
  end.

(** Forward: [chan_v t n] is the potential of channel [n] entering step
    [t]; [X] and [V0] are the input current and the initial potential. *)
Variables (X : nat → nat → val) (V0 : nat → val).

Fixpoint chan_v (t n : nat) : val :=
  match t with
  | 0 => V0 n
  | S t' => reset (fadd (chan_v t' n) (X t' n))
  end.

Definition chan_h (t n : nat) : val := fadd (chan_v t n) (X t n).
Definition chan_s (t n : nat) : val := spike (chan_h t n).

(** Backward: [chan_acc k n] is the accumulator of channel [n] after [k]
    iterations, that is after the rows [T - 1] down to [T - k]. *)
Variables (dS dV H : nat → nat → val) (T : nat).

Fixpoint chan_acc (k n : nat) : val :=
  match k with
  | 0 => fzero
  | S k' =>
      grad_h_lane (dS (T - 1 - k') n) (dV (T - 1 - k') n) (H (T - 1 - k') n)
                  (chan_acc k' n)
  end.

Definition chan_dx (t n : nat) : val := chan_acc (T - t) n.

End Recurrence.

Section Programs.
Context {D : Dtype}.

(** ** Loop invariants *)

Lemma for_range_inv {A} (P : nat → A → state → Prop)
    (ts : list Z) (body : Z → A → M A) (a : A) (st : state) :
  P 0 a st →
  (∀ k t a st, ts !! k = Some t → P k a st →
     P (S k) (body t a st).1 (body t a st).2) →
  P (length ts) (for_range ts body a st).1 (for_range ts body a st).2.
Proof.
  revert P a st. induction ts as [|t ts IH]; intros P a st H0 Hstep; [done|].
  simpl. unfold mbind, M_bind.
  specialize (Hstep 0 t a st eq_refl H0) as H1.
  destruct (body t a st) as [a' st']. simpl in H1.
  apply (IH (λ k, P (S k))); [done|].
  intros k t' a'' st'' Hk. apply (Hstep (S k)). done.
Qed.

Lemma launch_inv (P : list nat → state → Prop)
    (sched : list nat) (kernel : nat → M unit) (st : state) :
  P [] st →
  (∀ ran pid st, P ran st → P (ran ++ [pid]) (exec (kernel pid) st)) →
  P sched (exec (launch sched kernel) st).
Proof.
  intros H0 Hstep.
  assert (∀ pre st, P pre st → P (pre ++ sched) (exec (launch sched kernel) st))
    as Hgen; [|by apply (Hgen [])].
  induction sched as [|pid sched IH]; intros pre st' Hpre.
  - by rewrite app_nil_r.
  - simpl. unfold exec, mbind, M_bind.
    specialize (Hstep pre pid st' Hpre). unfold exec in Hstep.
    destruct (kernel pid st') as [[] st'']. simpl in Hstep.
    rewrite (assoc_L _ pre [pid] sched : pre ++ pid :: sched = (pre ++ [pid]) ++ sched).
    by apply IH.
Qed.

(** ** Buffers written element by element

    [written G N R buf0 buf]: [buf] is [buf0] with the element at row [t],
    column [n] replaced by [G t n] wherever [R t n] holds. *)

Definition written (G : nat → nat → val) (N : nat) (R : nat → nat → bool)
    (buf0 buf : list val) : Prop :=
  length buf = length buf0 ∧
  ∀ t n, n < N → t * N + n < length buf0 →
    buf !! (t * N + n) = if R t n then Some (G t n) else buf0 !! (t * N + n).

Lemma written_none G N R buf :
  (∀ t n, R t n = false) → written G N R buf buf.
Proof. intros HR. split; [done|]. intros t n _ _. by rewrite HR. Qed.

Lemma written_store G N R R' buf0 buf (bs : buffer) (T t off B : nat) :
  written G N R buf0 buf →
  (∀ t' n, n < N →
     R' t' n = R t' n || bool_decide (t' = t ∧ off ≤ n < off + B)) →
  written G N R' buf0
    (store_vals (make_block_ptr bs (T, N) (N, 1) (t, off) (1, B)) 0
                 ((λ i, G t (off + i)) <$> seq 0 B) buf).
Proof.
  intros [Hlen Hw] HR. split; [by rewrite store_vals_length|].
  intros t' n Hn Hin.
  rewrite (store_row_lookup _ _ _ _ _ _ _ (G t)) by (done || by rewrite Hlen).
  rewrite HR, Hw by done.
  destruct (decide _) as [[-> ?]|?].
  - rewrite bool_decide_eq_true_2 by done. by rewrite orb_true_r.
  - rewrite bool_decide_eq_false_2 by done. by rewrite orb_false_r.
Qed.

Lemma written_trans G N R1 R2 R buf0 buf1 buf2 :
  written G N R1 buf0 buf1 → written G N R2 buf1 buf2 →
  (∀ t n, R t n = R2 t n || R1 t n) →
  written G N R buf0 buf2.
Proof.
  intros [L1 W1] [L2 W2] HR. split; [congruence|].
  intros t n Hn Hin. rewrite W2, HR by (done || congruence).
  destruct (R2 t n); [done|]. by rewrite W1.
Qed.

Lemma written_ext G N R R' buf0 buf :
  written G N R buf0 buf → (∀ t n, R' t n = R t n) → written G N R' buf0 buf.
Proof.
  intros [L W] HR. split; [done|]. intros t n ??. rewrite HR. by apply W.
Qed.

(** ** Accesses *)

(** An access inside the tensor: a column below [N], and a row below [T]
    (below 1 for the one-row tensors [v_init] and [grad_v_init]). *)
Definition access_ok (T N : nat) (a : access) : Prop :=
  acc_col a < N ∧
  acc_row a < match acc_buf a with
              | v_init_buf | grad_v_init_buf => 1
              | _ => T
              end.

Lemma touched_spec w p :
  Forall (λ a, acc_write a = w ∧ acc_buf a = base p
               ∧ acc_row a = (offsets p).1 ∧ acc_col a < (shape p).2)
         (touched w p).
Proof.
  unfold touched. apply Forall_fmap, Forall_forall. intros i Hi.
  apply list_elem_of_filter in Hi as [Hok _]. simpl.
  unfold lane_ok in Hok. apply bool_decide_eq_true in Hok. done.
Qed.

Lemma touched_row_ok w (bs : buffer) (T N t off B : nat) :
  t < T → bs ≠ v_init_buf → bs ≠ grad_v_init_buf →
  Forall (access_ok T N)
         (touched w (make_block_ptr bs (T, N) (N, 1) (t, off) (1, B))).
Proof.
  intros Ht H1 H2. eapply Forall_impl; [apply touched_spec|].
  intros [w' b r c]; simpl. intros (_ & -> & -> & Hc).
  split; [done|]. simpl. by destruct bs.
Qed.

Lemma touched_init_ok w (bs : buffer) (T N off B : nat) :
  bs = v_init_buf ∨ bs = grad_v_init_buf →
  Forall (access_ok T N)
         (touched w (make_block_ptr bs (1, N) (N, 1) (0, off) (1, B))).
Proof.
  intros Hb. eapply Forall_impl; [apply touched_spec|].
  intros [w' b r c]; simpl. intros (_ & -> & -> & Hc).
  split; [done|]. simpl. destruct Hb as [-> | ->]; lia.
Qed.

(** ** One program instance of the forward kernel *)

Lemma tl_load_run (bs : buffer) (T N t off B : nat) (st : state) :
  tl_load (make_block_ptr bs (T, N) (N, 1) (t, off) (1, B)) st
  = ((λ i, rd (heap st bs) N t (off + i)) <$> seq 0 B,
     State (heap st)
           (log st ++ touched false
                        (make_block_ptr bs (T, N) (N, 1) (t, off) (1, B)))).
Proof. by rewrite tl_load_split, load_lanes_rd. Qed.

Lemma tl_store_run (bs : buffer) (T N t off B : nat) (G : nat → val)
    (st : state) :
  tl_store (make_block_ptr bs (T, N) (N, 1) (t, off) (1, B))
           (G <$> seq 0 B) st
  = (tt,
     State (upd (heap st) bs
              (store_vals (make_block_ptr bs (T, N) (N, 1) (t, off) (1, B))
                          0 (G <$> seq 0 B) (heap st bs)))
           (log st ++ touched true
                        (make_block_ptr bs (T, N) (N, 1) (t, off) (1, B)))).
Proof. apply tl_store_split. by rewrite length_fmap, length_seq. Qed.

Section Forward.
Variables (v_threshold v_reset : val) (T NCL BLOCK_NCL : nat).
Variables (soft_reset save_intermediates : bool).

(** The kernel as both host entry points launch it. *)
Definition fwd_kernel : nat → M unit :=
  _multistep_if_forward_kernel
    x_seq_buf v_init_buf s_seq_buf
    (if save_intermediates then Some h_seq_buf else None) v_seq_buf
    v_threshold v_reset T NCL BLOCK_NCL soft_reset save_intermediates.

Variable st0 : state.

Let X := rd (heap st0 x_seq_buf) NCL.
Let V0 := rd (heap st0 v_init_buf) NCL 0.
Let S_ := chan_s v_threshold v_reset soft_reset X V0.
Let H_ := chan_h v_threshold v_reset soft_reset X V0.
Let V_ := λ t n, chan_v v_threshold v_reset soft_reset X V0 (S t) n.

Definition in_block (off n : nat) : bool :=
  bool_decide (off ≤ n < off + BLOCK_NCL).

Definition fwd_post (off : nat) (k : nat) (st : state) : Prop :=
  (∀ b, b ≠ s_seq_buf → b ≠ v_seq_buf → b ≠ h_seq_buf →
        heap st b = heap st0 b)
  ∧ written S_ NCL (λ t n, bool_decide (t < k) && in_block off n)
            (heap st0 s_seq_buf) (heap st s_seq_buf)
  ∧ written V_ NCL (λ t n, bool_decide (t < k) && in_block off n)
            (heap st0 v_seq_buf) (heap st v_seq_buf)
  ∧ (if save_intermediates then
       written H_ NCL (λ t n, bool_decide (t < k) && in_block off n)
               (heap st0 h_seq_buf) (heap st h_seq_buf)
     else heap st h_seq_buf = heap st0 h_seq_buf)
  ∧ (Forall (access_ok T NCL) (log st0) → Forall (access_ok T NCL) (log st)).

Definition fwd_inv (off : nat) (k : nat) (v : list val) (st : state) : Prop :=
  v = (λ i, chan_v v_threshold v_reset soft_reset X V0 k (off + i))
        <$> seq 0 BLOCK_NCL
  ∧ fwd_post off k st.

Lemma in_block_step (off k t n : nat) :
  bool_decide (t < S k) && in_block off n
  = bool_decide (t < k) && in_block off n
    || bool_decide (t = k ∧ off ≤ n < off + BLOCK_NCL).
Proof.
  unfold in_block.
  repeat case_bool_decide; simpl; try done; lia.
Qed.

Lemma fwd_program (pid : nat) :
  fwd_post (pid * BLOCK_NCL) T (exec (fwd_kernel pid) st0).
Proof.
  unfold fwd_kernel, _multistep_if_forward_kernel, exec.
  unfold mbind at 1. unfold M_bind at 1. rewrite tl_load_run.
  unfold mbind at 1. unfold M_bind at 1.
  set (off := pid * BLOCK_NCL).
  match goal with |- context [for_range ?ts ?body ?a ?st] =>
    pose proof (for_range_inv (fwd_inv off) ts body a st) as Hloop;
    destruct (for_range ts body a st) as [vT stT]
  end.
  rewrite static_range_up_length in Hloop. simpl in Hloop |- *.
  cut (fwd_inv off T vT stT); [by intros [_ ?]|].
  apply Hloop; clear Hloop.
  - split; [done|]. split; [done|]. simpl.
    split; [by apply written_none|]. split; [by apply written_none|].
    split.
    + destruct save_intermediates; [by apply written_none|done].
    + intros Hlog. apply Forall_app. split; [done|].
      apply touched_init_ok. by left.
  - intros k t v st Hk (-> & Hfr & HS & HV & HH & Hlog).
    apply static_range_up_lookup in Hk as [Hk ->].
    unfold mbind, M_bind. rewrite tl_load_run. rewrite (Hfr x_seq_buf) by done.
    rewrite badd_lanes, bge_s_to_dtype_lanes.
    assert ((if soft_reset
             then bsub ((λ i, H_ k (off + i)) <$> seq 0 BLOCK_NCL)
                       (bmul_s ((λ i, S_ k (off + i)) <$> seq 0 BLOCK_NCL)
                               v_threshold)
             else badd (bmul_s ((λ i, S_ k (off + i)) <$> seq 0 BLOCK_NCL)
                               v_reset)
                       (bmul (ssub_b fone
                                ((λ i, S_ k (off + i)) <$> seq 0 BLOCK_NCL))
                             ((λ i, H_ k (off + i)) <$> seq 0 BLOCK_NCL)))
            = (λ i, V_ k (off + i)) <$> seq 0 BLOCK_NCL) as Hv.
    { unfold V_, S_, H_. simpl. unfold reset, chan_s.
      destruct soft_reset.
      - by rewrite bmul_s_lanes, bsub_lanes.
      - by rewrite bmul_s_lanes, ssub_b_lanes, bmul_lanes, badd_lanes. }
    change (λ i, of_bool
                   (fge (fadd (chan_v v_threshold v_reset soft_reset X V0 k
                                      (off + i))
                              (rd (heap st0 x_seq_buf) NCL k (off + i)))
                        v_threshold))
      with (λ i, S_ k (off + i)).
    change (λ i, fadd (chan_v v_threshold v_reset soft_reset X V0 k (off + i))
                      (rd (heap st0 x_seq_buf) NCL k (off + i)))
      with (λ i, H_ k (off + i)).
    rewrite Hv. clear Hv.
    unfold fwd_inv, fwd_post, mret, M_ret.
    destruct save_intermediates; cbv beta iota; rewrite !tl_store_run; simpl.
    all: split; [done|]; unfold upd; simpl.
    all: split; [intros b ???; simpl; repeat case_decide; done || by apply Hfr|].
    all: split; [by eapply written_store; [exact HS|intros; apply in_block_step]|].
    all: split; [by eapply written_store; [exact HV|intros; apply in_block_step]|].
    all: split; [by (eapply written_store; [exact HH|intros; apply in_block_step])
                    || by rewrite HH |].
    all: intros Hlog0; rewrite !Forall_app; repeat split;
      by (apply Hlog || apply touched_row_ok).
Qed.

End Forward.

(** ** The forward kernel launched over a schedule *)

Section ForwardLaunch.
Variables (v_threshold v_reset : val) (T NCL BLOCK_NCL : nat).
Variables (soft_reset save_intermediates : bool).
Hypothesis BLOCK_pos : 0 < BLOCK_NCL.
Variable st0 : state.

Let X := rd (heap st0 x_seq_buf) NCL.
Let V0 := rd (heap st0 v_init_buf) NCL 0.

(** Element [(t, n)] belongs to a program instance that has run. *)
Definition ran_over (T BLOCK_NCL : nat) (ran : list nat) (t n : nat) : bool :=
  bool_decide (t < T) && bool_decide (n / BLOCK_NCL ∈ ran).

Definition fwd_launch_post (ran : list nat) (st : state) : Prop :=
  (∀ b, b ≠ s_seq_buf → b ≠ v_seq_buf → b ≠ h_seq_buf →
        heap st b = heap st0 b)
  ∧ written (chan_s v_threshold v_reset soft_reset X V0) NCL
            (ran_over T BLOCK_NCL ran)
            (heap st0 s_seq_buf) (heap st s_seq_buf)
  ∧ written (λ t n, chan_v v_threshold v_reset soft_reset X V0 (S t) n) NCL
            (ran_over T BLOCK_NCL ran)
            (heap st0 v_seq_buf) (heap st v_seq_buf)
  ∧ (if save_intermediates then
       written (chan_h v_threshold v_reset soft_reset X V0) NCL
               (ran_over T BLOCK_NCL ran)
               (heap st0 h_seq_buf) (heap st h_seq_buf)
     else heap st h_seq_buf = heap st0 h_seq_buf)
  ∧ (Forall (access_ok T NCL) (log st0) → Forall (access_ok T NCL) (log st)).

Lemma ran_over_nil (T' B t n : nat) : ran_over T' B [] t n = false.
Proof.
  unfold ran_over. rewrite (bool_decide_eq_false_2 (_ ∈ [])).
  - apply andb_false_r.
  - apply not_elem_of_nil.
Qed.

Lemma ran_over_snoc (ran : list nat) (pid t n : nat) :
  ran_over T BLOCK_NCL (ran ++ [pid]) t n
  = bool_decide (t < T) && in_block BLOCK_NCL (pid * BLOCK_NCL) n
    || ran_over T BLOCK_NCL ran t n.
Proof.
  unfold ran_over, in_block.
  pose proof (block_of_channel BLOCK_NCL pid n BLOCK_pos) as Hb.
  destruct (bool_decide (t < T)); simpl; [|done].
  rewrite <- bool_decide_or. apply bool_decide_ext.
  rewrite elem_of_app, list_elem_of_singleton, Hb. tauto.
Qed.

Lemma fwd_launch (sched : list nat) :
  fwd_launch_post sched
    (exec (launch sched
             (fwd_kernel v_threshold v_reset T NCL BLOCK_NCL soft_reset
                         save_intermediates)) st0).
Proof.
  apply (launch_inv fwd_launch_post).
  - split; [done|]. split; [apply written_none, ran_over_nil|].
    split; [apply written_none, ran_over_nil|]. split; [|done].
    destruct save_intermediates; [apply written_none, ran_over_nil|done].
  - intros ran pid st (Hfr & HS & HV & HH & Hlog).
    destruct (fwd_program v_threshold v_reset T NCL BLOCK_NCL soft_reset
                save_intermediates st pid) as (Hfr' & HS' & HV' & HH' & Hlog').
    rewrite (Hfr x_seq_buf), (Hfr v_init_buf) in HS', HV', HH' by done.
    split; [intros b ???; rewrite Hfr' by done; by apply Hfr|].
    split; [eapply written_trans; [exact HS|exact HS'|apply ran_over_snoc]|].
    split; [eapply written_trans; [exact HV|exact HV'|apply ran_over_snoc]|].
    split; [|by intros; apply Hlog', Hlog].
    destruct save_intermediates.
    + eapply written_trans; [exact HH|exact HH'|apply ran_over_snoc].
    + by rewrite HH'.
Qed.

End ForwardLaunch.

(** ** One program instance of the backward kernel *)

Lemma grad_h_lanes (v_threshold v_reset : val) (sg_fn : val → val)
    (soft_reset detach_reset : bool) (gs gv h acc : nat → val) (l : list nat) :
  (if soft_reset then
     if detach_reset then
       tl_fma (gs <$> l) (sg_fn <$> bsub_s (h <$> l) v_threshold)
              (badd (gv <$> l) (acc <$> l))
     else
       tl_fma (bsub (gs <$> l)
                    (smul_b v_threshold (badd (gv <$> l) (acc <$> l))))
              (sg_fn <$> bsub_s (h <$> l) v_threshold)
              (badd (gv <$> l) (acc <$> l))
   else
     if detach_reset then
       tl_fma (gs <$> l) (sg_fn <$> bsub_s (h <$> l) v_threshold)
              (bmul (badd (gv <$> l) (acc <$> l))
                    (ssub_b fone (bge_s_to_dtype (h <$> l) v_threshold)))
     else
       tl_fma (tl_fma (badd (gv <$> l) (acc <$> l))
                      (ssub_b v_reset (h <$> l)) (gs <$> l))
              (sg_fn <$> bsub_s (h <$> l) v_threshold)
              (bmul (badd (gv <$> l) (acc <$> l))
                    (ssub_b fone (bge_s_to_dtype (h <$> l) v_threshold))))
  = (λ i, grad_h_lane v_threshold v_reset soft_reset sg_fn detach_reset
                      (gs i) (gv i) (h i) (acc i)) <$> l.
Proof.
  unfold grad_h_lane, spike.
  rewrite bsub_s_lanes, fmap_lanes, badd_lanes.
  destruct soft_reset, detach_reset.
  - by rewrite tl_fma_lanes.
  - by rewrite smul_b_lanes, bsub_lanes, tl_fma_lanes.
  - by rewrite bge_s_to_dtype_lanes, ssub_b_lanes, bmul_lanes, tl_fma_lanes.
  - by rewrite bge_s_to_dtype_lanes, !ssub_b_lanes, bmul_lanes, !tl_fma_lanes.
Qed.

Section Backward.
Variables (v_threshold v_reset : val) (T NCL BLOCK_NCL : nat).
Variables (sg_fn : val → val) (soft_reset detach_reset : bool).

(** The kernel as the host entry point launches it. *)
Definition bwd_kernel : nat → M unit :=
  _multistep_if_backward_kernel
    grad_s_seq_buf grad_v_seq_buf h_seq_buf grad_x_seq_buf grad_v_init_buf
    v_threshold v_reset T NCL BLOCK_NCL sg_fn soft_reset detach_reset.

Variable st0 : state.

Let dS := rd (heap st0 grad_s_seq_buf) NCL.
Let dV := rd (heap st0 grad_v_seq_buf) NCL.
Let H := rd (heap st0 h_seq_buf) NCL.
Let ACC :=
  chan_acc v_threshold v_reset soft_reset sg_fn detach_reset dS dV H T.
Let DX :=
  chan_dx v_threshold v_reset soft_reset sg_fn detach_reset dS dV H T.

Definition bwd_loop_post (off : nat) (k : nat) (st : state) : Prop :=
  (∀ b, b ≠ grad_x_seq_buf → heap st b = heap st0 b)
  ∧ written DX NCL (λ t n, bool_decide (T - k ≤ t < T) && in_block BLOCK_NCL off n)
            (heap st0 grad_x_seq_buf) (heap st grad_x_seq_buf)
  ∧ (Forall (access_ok T NCL) (log st0) → Forall (access_ok T NCL) (log st)).

Definition bwd_inv (off : nat) (k : nat) (acc : list val) (st : state) : Prop :=
  acc = (λ i, ACC k (off + i)) <$> seq 0 BLOCK_NCL ∧ bwd_loop_post off k st.

Definition bwd_post (off : nat) (st : state) : Prop :=
  (∀ b, b ≠ grad_x_seq_buf → b ≠ grad_v_init_buf → heap st b = heap st0 b)
  ∧ written DX NCL (λ t n, bool_decide (t < T) && in_block BLOCK_NCL off n)
            (heap st0 grad_x_seq_buf) (heap st grad_x_seq_buf)
  ∧ written (λ _ n, ACC T n) NCL
            (λ t n, bool_decide (t < 1) && in_block BLOCK_NCL off n)
            (heap st0 grad_v_init_buf) (heap st grad_v_init_buf)
  ∧ (Forall (access_ok T NCL) (log st0) → Forall (access_ok T NCL) (log st)).

Lemma bwd_block_step (off k t n : nat) :
  k < T →
  bool_decide (T - S k ≤ t < T) && in_block BLOCK_NCL off n
  = bool_decide (T - k ≤ t < T) && in_block BLOCK_NCL off n
    || bool_decide (t = T - 1 - k ∧ off ≤ n < off + BLOCK_NCL).
Proof.
  intros Hk. unfold in_block.
  repeat case_bool_decide; simpl; try done; lia.
Qed.

Lemma bwd_program (pid : nat) :
  bwd_post (pid * BLOCK_NCL) (exec (bwd_kernel pid) st0).
Proof.
  unfold bwd_kernel, _multistep_if_backward_kernel, exec.
  unfold mbind at 1. unfold M_bind at 1.
  set (off := pid * BLOCK_NCL). rewrite tl_zeros_lanes.
  match goal with |- context [for_range ?ts ?body ?a ?st] =>
    pose proof (for_range_inv (bwd_inv off) ts body a st) as Hloop;
    destruct (for_range ts body a st) as [accT stT]
  end.
  rewrite static_range_down_length in Hloop.
  cbn [fst snd] in Hloop. cbv beta iota.
  assert (bwd_inv off T accT stT) as (-> & Hfr & HX & Hlog).
  { apply Hloop; clear Hloop.
    - split; [done|]. split; [done|]. split; [|done].
      apply written_none. intros t n.
      by rewrite bool_decide_eq_false_2 by lia.
    - intros k t acc st Hk (-> & Hfr & HX & Hlog).
      apply static_range_down_lookup in Hk as [Hk ->].
      unfold mbind, M_bind. repeat (rewrite tl_load_run; cbv beta iota).
      cbn [heap].
      rewrite (Hfr grad_s_seq_buf), (Hfr grad_v_seq_buf), (Hfr h_seq_buf)
        by done.
      unfold to_dtype. rewrite grad_h_lanes.
      split; [done|].
      unfold bwd_loop_post, mret, M_ret. rewrite tl_store_run.
      unfold upd; simpl.
      split; [intros b ?; by rewrite decide_False, Hfr by done|].
      split.
      + match goal with
        | |- context [store_vals _ 0 (?f <$> seq 0 BLOCK_NCL) _] =>
            assert (f = (λ i, DX (T - 1 - k) (off + i))) as ->
        end.
        { unfold DX, chan_dx. by replace (T - (T - 1 - k)) with (S k) by lia. }
        eapply written_store; [exact HX|].
        intros; by apply bwd_block_step.
      + intros Hlog0. rewrite !Forall_app. repeat split;
          (by apply Hlog) || (apply touched_row_ok; done || lia). }
  unfold bwd_post, to_dtype. rewrite tl_store_run. unfold upd; simpl.
  split; [intros b ??; by rewrite decide_False, Hfr by done|].
  split.
  - eapply written_ext; [exact HX|].
    intros t n. simpl. f_equal. apply bool_decide_ext. lia.
  - split.
    + rewrite Hfr by done. eapply (written_store (λ _ n, ACC T n));
        [apply (written_none _ _ (λ _ _, false)); done|].
      intros t' n _. simpl. unfold in_block.
      repeat case_bool_decide; simpl; try done; lia.
    + intros Hlog0. apply Forall_app. split; [by apply Hlog|].
      apply touched_init_ok. by right.
Qed.

End Backward.

(** ** The backward kernel launched over a schedule *)

Section BackwardLaunch.
Variables (v_threshold v_reset : val) (T NCL BLOCK_NCL : nat).
Variables (sg_fn : val → val) (soft_reset detach_reset : bool).
Hypothesis BLOCK_pos : 0 < BLOCK_NCL.
Variable st0 : state.

Let dS := rd (heap st0 grad_s_seq_buf) NCL.
Let dV := rd (heap st0 grad_v_seq_buf) NCL.
Let H := rd (heap st0 h_seq_buf) NCL.

Definition bwd_launch_post (ran : list nat) (st : state) : Prop :=
  (∀ b, b ≠ grad_x_seq_buf → b ≠ grad_v_init_buf → heap st b = heap st0 b)
  ∧ written (chan_dx v_threshold v_reset soft_reset sg_fn detach_reset
                     dS dV H T) NCL
            (ran_over T BLOCK_NCL ran)
            (heap st0 grad_x_seq_buf) (heap st grad_x_seq_buf)
  ∧ written (λ _ n, chan_acc v_threshold v_reset soft_reset sg_fn detach_reset
                             dS dV H T T n) NCL
            (ran_over 1 BLOCK_NCL ran)
            (heap st0 grad_v_init_buf) (heap st grad_v_init_buf)
  ∧ (Forall (access_ok T NCL) (log st0) → Forall (access_ok T NCL) (log st)).

Lemma bwd_launch (sched : list nat) :
  bwd_launch_post sched
    (exec (launch sched
             (bwd_kernel v_threshold v_reset T NCL BLOCK_NCL sg_fn soft_reset
                         detach_reset)) st0).
Proof.
  apply (launch_inv bwd_launch_post).
  - split; [done|]. split; [apply written_none, ran_over_nil|].
    split; [apply written_none, ran_over_nil|done].
  - intros ran pid st (Hfr & HX & HI & Hlog).
    destruct (bwd_program v_threshold v_reset T NCL BLOCK_NCL sg_fn soft_reset
                detach_reset st pid) as (Hfr' & HX' & HI' & Hlog').
    rewrite (Hfr grad_s_seq_buf), (Hfr grad_v_seq_buf), (Hfr h_seq_buf)
      in HX', HI' by done.
    split; [intros b ??; rewrite Hfr' by done; by apply Hfr|].
    split; [eapply written_trans; [exact HX|exact HX'|by apply ran_over_snoc]|].
    split; [eapply written_trans; [exact HI|exact HI'|by apply ran_over_snoc]|].
    by intros; apply Hlog', Hlog.
Qed.

End BackwardLaunch.

(** ** Complete launches *)

Lemma ran_over_full (T N B : nat) (sched : list nat) (t n : nat) :
  0 < B → sched ≡ₚ seq 0 (cdiv N B) → t < T → n < N →
  ran_over T B sched t n = true.
Proof.
  intros HB Hperm Ht Hn. unfold ran_over.
  rewrite !bool_decide_eq_true_2; [done| |done].
  rewrite Hperm. apply elem_of_seq. split; [lia|].
  simpl. by apply channel_in_grid.
Qed.

Lemma written_lookup G N R (buf0 buf : list val) (t n : nat) :
  written G N R buf0 buf → R t n = true → n < N →
  t * N + n < length buf0 →
  buf !! (t * N + n) = Some (G t n).
Proof. intros [_ W] HR Hn Hlen. by rewrite W, HR. Qed.

(** A buffer given by its elements. *)
Definition tabulate2 (G : nat → nat → val) (T N : nat) : list val :=
  (λ k, G (k / N) (k mod N)) <$> seq 0 (T * N).

Lemma tabulate2_lookup G (T N t n : nat) :
  t < T → n < N → tabulate2 G T N !! (t * N + n) = Some (G t n).
Proof.
  intros Ht Hn. unfold tabulate2.
  rewrite list_lookup_fmap, lookup_seq_lt by nia. simpl.
  rewrite Nat.div_add_l, Nat.div_small, Nat.add_0_r by lia.
  rewrite Nat.add_comm, Nat.Div0.mod_add, Nat.mod_small by lia. done.
Qed.

Lemma written_full G (T N : nat) R (buf0 buf : list val) :
  written G N R buf0 buf → length buf0 = T * N →
  (∀ t n, t < T → n < N → R t n = true) →
  buf = tabulate2 G T N.
Proof.
  intros [L W] Hlen HR. apply list_eq. intros k.
  destruct (decide (k < T * N)) as [Hk|Hk].
  - assert (0 < N) by nia.
    pose proof (Nat.div_mod_eq k N). pose proof (Nat.mod_upper_bound k N).
    assert (k / N < T) by (apply Nat.Div0.div_lt_upper_bound; lia).
    replace k with (k / N * N + k mod N) at 1 2 by lia.
    rewrite tabulate2_lookup, W, HR by lia. done.
  - rewrite !lookup_ge_None_2; [done| |lia].
    unfold tabulate2. rewrite length_fmap, length_seq. lia.
Qed.

(** The element at row [t], column [n] of a row-major buffer with [N]
    columns. *)
Definition at2 (buf : list val) (N t n : nat) : val :=
  default fzero (buf !! (t * N + n)).

Lemma rd_at2 (buf : list val) (N t n : nat) :
  n < N → rd buf N t n = at2 buf N t n.
Proof. intros. unfold rd, at2. by rewrite bool_decide_eq_true_2. Qed.

Lemma at2_tabulate2 G (T N t n : nat) :
  t < T → n < N → at2 (tabulate2 G T N) N t n = G t n.
Proof. intros. unfold at2. by rewrite tabulate2_lookup. Qed.

Lemma tabulate2_length G (T N : nat) : length (tabulate2 G T N) = T * N.
Proof. unfold tabulate2. by rewrite length_fmap, length_seq. Qed.

(** The buffers of a forward launch have the shape of the tensors. *)
Definition fwd_heap_ok (T N : nat) (save_intermediates : bool) (st : state)
  : Prop :=
  length (heap st x_seq_buf) = T * N
  ∧ length (heap st v_init_buf) = N
  ∧ length (heap st s_seq_buf) = T * N
  ∧ length (heap st v_seq_buf) = T * N
  ∧ (save_intermediates = true → length (heap st h_seq_buf) = T * N).

Definition bwd_heap_ok (T N : nat) (st : state) : Prop :=
  length (heap st grad_s_seq_buf) = T * N
  ∧ length (heap st grad_v_seq_buf) = T * N
  ∧ length (heap st h_seq_buf) = T * N
  ∧ length (heap st grad_x_seq_buf) = T * N
  ∧ length (heap st grad_v_init_buf) = N.

Lemma fwd_launch_full (v_threshold v_reset : val) (T N B : nat)
    (soft_reset save_intermediates : bool) (sched : list nat) (st0 : state) :
  0 < B → sched ≡ₚ seq 0 (cdiv N B) →
  length (heap st0 s_seq_buf) = T * N →
  length (heap st0 v_seq_buf) = T * N →
  (save_intermediates = true → length (heap st0 h_seq_buf) = T * N) →
  let X := rd (heap st0 x_seq_buf) N in
  let V0 := rd (heap st0 v_init_buf) N 0 in
  let st := exec (launch sched
                    (fwd_kernel v_threshold v_reset T N B soft_reset
                                save_intermediates)) st0 in
  heap st s_seq_buf = tabulate2 (chan_s v_threshold v_reset soft_reset X V0) T N
  ∧ heap st v_seq_buf
    = tabulate2 (λ t n, chan_v v_threshold v_reset soft_reset X V0 (S t) n) T N
  ∧ heap st h_seq_buf
    = (if save_intermediates
       then tabulate2 (chan_h v_threshold v_reset soft_reset X V0) T N
       else heap st0 h_seq_buf)
  ∧ (∀ b, b ≠ s_seq_buf → b ≠ v_seq_buf → b ≠ h_seq_buf →
          heap st b = heap st0 b).
Proof.
  intros HB Hperm Ls Lv Lh X V0 st.
  destruct (fwd_launch v_threshold v_reset T N B soft_reset save_intermediates
              HB st0 sched) as (Hfr & HS & HV & HH & _).
  pose proof (λ t n, ran_over_full T N B sched t n HB Hperm) as Hfull.
  split; [by eapply written_full|]. split; [by eapply written_full|].
  split; [|done].
  destruct save_intermediates; [|done]. eapply written_full; eauto.
Qed.

Lemma bwd_launch_full (v_threshold v_reset : val) (T N B : nat)
    (sg_fn : val → val) (soft_reset detach_reset : bool)
    (sched : list nat) (st0 : state) :
  0 < B → sched ≡ₚ seq 0 (cdiv N B) →
  length (heap st0 grad_x_seq_buf) = T * N →
  length (heap st0 grad_v_init_buf) = N →
  let dS := rd (heap st0 grad_s_seq_buf) N in
  let dV := rd (heap st0 grad_v_seq_buf) N in
  let H := rd (heap st0 h_seq_buf) N in
  let st := exec (launch sched
                    (bwd_kernel v_threshold v_reset T N B sg_fn soft_reset
                                detach_reset)) st0 in
  heap st grad_x_seq_buf
  = tabulate2 (chan_dx v_threshold v_reset soft_reset sg_fn detach_reset
                       dS dV H T) T N
  ∧ heap st grad_v_init_buf
    = tabulate2 (λ _ n, chan_acc v_threshold v_reset soft_reset sg_fn
                                 detach_reset dS dV H T T n) 1 N
  ∧ (∀ b, b ≠ grad_x_seq_buf → b ≠ grad_v_init_buf → heap st b = heap st0 b).
Proof.
  intros HB Hperm Lx Li dS dV H st.
  destruct (bwd_launch v_threshold v_reset T N B sg_fn soft_reset detach_reset
              HB st0 sched) as (Hfr & HX & HI & _).
  split; [|split; [|done]].
  - eapply written_full; [exact HX|done|].
    intros t n. by apply ran_over_full.
  - eapply written_full; [exact HI|lia|].
    intros t n. by apply ran_over_full.
Qed.

(** ** The host entry points

    With a sound launch environment every entry point returns tensors
    whose elements are given by the recurrences; nothing of the block size,
    of the schedule or of the uninitialised memory is left in them. *)

Lemma empty_data_length (e : launch_env) (b : buffer) (n : nat) :
  length (empty_data e b n) = n.
Proof. unfold empty_data. by rewrite length_fmap, length_seq. Qed.

Lemma multistep_if_forward_eq (e : launch_env) (x_seq : tensor)
    (v_init : list val) (v_threshold v_reset : val) (soft_reset : bool) :
  env_ok e → shape0 x_seq ≠ 0 →
  let T := shape0 x_seq in
  let N := numel0 x_seq in
  let X := rd (data x_seq) N in
  let V0 := rd v_init N 0 in
  multistep_if_forward e x_seq v_init v_threshold v_reset soft_reset
  = Some (Tensor T N (tabulate2 (chan_s v_threshold v_reset soft_reset X V0) T N),
          Tensor T N
            (tabulate2 (λ t n, chan_v v_threshold v_reset soft_reset X V0
                                      (S t) n) T N),
          Tensor T N (tabulate2 (chan_h v_threshold v_reset soft_reset X V0) T N)).
Proof.
  intros [HB Hsched] HT T N X V0. subst X V0.
  unfold multistep_if_forward, first_numel, first_slice.
  rewrite decide_False by done. simpl.
  match goal with |- context [exec (launch ?l ?k) ?st] =>
    pose proof (fwd_launch_full v_threshold v_reset T N (BLOCK_NCL e)
                  soft_reset true l st HB (Hsched _)) as Hfull
  end.
  simpl in Hfull. rewrite !empty_data_length in Hfull.
  destruct Hfull as (HS & HV & HH & _); [done..|].
  unfold fwd_kernel in HS, HV, HH. subst T N. by rewrite HS, HV, HH.
Qed.

Lemma multistep_if_inference_eq (e : launch_env) (x_seq : tensor)
    (v_init : list val) (v_threshold v_reset : val) (soft_reset : bool) :
  env_ok e → shape0 x_seq ≠ 0 →
  let T := shape0 x_seq in
  let N := numel0 x_seq in
  let X := rd (data x_seq) N in
  let V0 := rd v_init N 0 in
  multistep_if_inference e x_seq v_init v_threshold v_reset soft_reset
  = Some (Tensor T N (tabulate2 (chan_s v_threshold v_reset soft_reset X V0) T N),
          Tensor T N
            (tabulate2 (λ t n, chan_v v_threshold v_reset soft_reset X V0
                                      (S t) n) T N)).
Proof.
  intros [HB Hsched] HT T N X V0. subst X V0.
  unfold multistep_if_inference, first_numel, first_slice.
  rewrite decide_False by done. simpl.
  match goal with |- context [exec (launch ?l ?k) ?st] =>
    pose proof (fwd_launch_full v_threshold v_reset T N (BLOCK_NCL e)
                  soft_reset false l st HB (Hsched _)) as Hfull
  end.
  simpl in Hfull. rewrite !empty_data_length in Hfull.
  destruct Hfull as (HS & HV & _); [done..|].
  unfold fwd_kernel in HS, HV. subst T N. by rewrite HS, HV.
Qed.

Lemma multistep_if_backward_eq (e : launch_env)
    (grad_s_seq grad_v_seq h_seq : tensor) (v_threshold v_reset : val)
    (sg_fn : val → val) (soft_reset detach_reset : bool) :
  env_ok e → shape0 grad_s_seq ≠ 0 → shape0 grad_v_seq ≠ 0 →
  wf_tensor grad_v_seq → numel0 grad_v_seq = numel0 grad_s_seq →
  let T := shape0 grad_s_seq in
  let N := numel0 grad_s_seq in
  let dS := rd (data grad_s_seq) N in
  let dV := rd (data grad_v_seq) N in
  let H := rd (data h_seq) N in
  multistep_if_backward e grad_s_seq grad_v_seq h_seq v_threshold v_reset
                        sg_fn soft_reset detach_reset
  = Some (Tensor T N
            (tabulate2 (chan_dx v_threshold v_reset soft_reset sg_fn
                                detach_reset dS dV H T) T N),
          tabulate2 (λ _ n, chan_acc v_threshold v_reset soft_reset sg_fn
                                     detach_reset dS dV H T T n) 1 N).
Proof.
  intros [HB Hsched] HT HTv Hwf HN T N dS dV H. subst dS dV H.
  unfold multistep_if_backward, first_numel, first_slice.
  rewrite !decide_False by done. simpl.
  assert (length (take (numel0 grad_v_seq) (data grad_v_seq)) = N) as ->.
  { rewrite length_take, Hwf, HN. unfold N. nia. }
  match goal with |- context [exec (launch ?l ?k) ?st] =>
    pose proof (bwd_launch_full v_threshold v_reset T N (BLOCK_NCL e)
                  sg_fn soft_reset detach_reset l st HB (Hsched _)) as Hfull
  end.
  simpl in Hfull. rewrite !empty_data_length in Hfull.
  destruct Hfull as (HX & HI & _); [done..|].
  unfold bwd_kernel in HX, HI. subst T N. by rewrite HX, HI.
Qed.

Lemma entry_points_empty (e : launch_env) (x_seq : tensor) (v_init : list val)
    (v_threshold v_reset : val) (soft_reset : bool) :
  shape0 x_seq = 0 →
  multistep_if_forward e x_seq v_init v_threshold v_reset soft_reset = None
  ∧ multistep_if_inference e x_seq v_init v_threshold v_reset soft_reset = None.
Proof.
  intros HT. unfold multistep_if_forward, multistep_if_inference,
    first_numel, first_slice.
  by rewrite !decide_True.
Qed.

End Programs.

(** * The specification, claim by claim *)

(** A small launch on exact integers, used to instantiate the theorems:
    two time steps, three channels, blocks of two channels (the second
    block is partial), the second program instance run first. *)
Module Sample.

Definition fwd_state : state (D := Z_dtype) :=
  State (λ b, match b with
              | x_seq_buf => [5; 3; 10; 5; 3; 0]%Z
              | v_init_buf => [6; 2; 0]%Z
              | s_seq_buf | v_seq_buf | h_seq_buf => replicate 6 77%Z
              | _ => []
              end) [].

Definition bwd_state : state (D := Z_dtype) :=
  State (λ b, match b with
              | grad_s_seq_buf => [1; 2; 3; 4; 5; 6]%Z
              | grad_v_seq_buf => [1; 1; 1; 2; 2; 2]%Z
              | h_seq_buf => [11; 5; 10; 6; 8; 0]%Z
              | grad_x_seq_buf => replicate 6 77%Z
              | grad_v_init_buf => replicate 3 77%Z
              | _ => []
              end) [].

(** The backward buffers for an empty time axis and three channels. *)
Definition empty_state : state (D := Z_dtype) :=
  State (λ b, match b with
              | grad_v_init_buf => replicate 3 77%Z
              | _ => []
              end) [].

Definition ctx0 : context (D := Z_dtype) :=
  Context [true; true; false; false; false; false] [] None None None None None.

Definition env (B : nat) (rev_order : bool) : launch_env (D := Z_dtype) :=
  LaunchEnv B (λ grid, if rev_order then reverse (seq 0 grid) else seq 0 grid)
            (λ _ k, Z.of_nat (70 + k)).

Definition x_seq : tensor (D := Z_dtype) :=
  Tensor 2 3 [5; 3; 10; 5; 3; 0]%Z.
Definition grad_s_seq : tensor (D := Z_dtype) :=
  Tensor 2 3 [1; 2; 3; 4; 5; 6]%Z.
Definition grad_v_seq : tensor (D := Z_dtype) :=
  Tensor 2 3 [1; 1; 1; 2; 2; 2]%Z.
Definition h_seq : tensor (D := Z_dtype) :=
  Tensor 2 3 [11; 5; 10; 6; 8; 0]%Z.

Lemma env_ok_env (B : nat) (rev_order : bool) : 0 < B → env_ok (env B rev_order).
Proof.
  intros HB. split; [done|]. intros grid. simpl.
  destruct rev_order; [apply reverse_Permutation|done].
Defined.

End Sample.

Section Claims.
Context {D : Dtype}.

(** C1.  After the forward kernel has been launched over the grid, with
    any positive block size and any order of the program instances, the
    outputs hold, for every time step [t < T] and channel [n < N]:
    [h = v_prev + x[t]], where [v_prev] is the initial potential at [t = 0]
    and the stored potential of step [t - 1] afterwards;
    [s = 1] if [h >= v_threshold] (equality included) and [0] otherwise;
    [v = h - s * v_threshold] under soft reset and
    [v = s * v_reset + (1 - s) * h] otherwise.  [S[t]] holds [s], [V[t]]
    holds [v], and [H[t]] holds [h] when intermediates are saved (the
    [H] buffer is left as it was when they are not). *)
Theorem forward_recurrence (v_threshold v_reset : val) (T N B : nat)
    (soft_reset save_intermediates : bool) (sched : list nat) (st0 : state)
    (t n : nat) :
  0 < B → sched ≡ₚ seq 0 (cdiv N B) →
  fwd_heap_ok T N save_intermediates st0 →
  t < T → n < N →
  let st := exec (launch sched
                    (fwd_kernel v_threshold v_reset T N B soft_reset
                                save_intermediates)) st0 in
  let v_prev := match t with
                | 0 => at2 (heap st0 v_init_buf) N 0 n
                | S t' => at2 (heap st v_seq_buf) N t' n
                end in
  let h := fadd v_prev (at2 (heap st0 x_seq_buf) N t n) in
  let s := if fge h v_threshold then fone else fzero in
  heap st s_seq_buf !! (t * N + n) = Some s
  ∧ heap st v_seq_buf !! (t * N + n)
    = Some (if soft_reset then fsub h (fmul s v_threshold)
            else fadd (fmul s v_reset) (fmul (fsub fone s) h))
  ∧ (if save_intermediates then heap st h_seq_buf !! (t * N + n) = Some h
     else heap st h_seq_buf = heap st0 h_seq_buf).
Proof.
  intros HB Hperm (_ & _ & Ls & Lv & Lh) Ht Hn st v_prev h s.
  destruct (fwd_launch_full v_threshold v_reset T N B soft_reset
              save_intermediates sched st0 HB Hperm Ls Lv Lh)
    as (HS & HV & HH & _).
  fold st in HS, HV, HH.
  set (X := rd (heap st0 x_seq_buf) N) in *.
  set (V0 := rd (heap st0 v_init_buf) N 0) in *.
  assert (v_prev = chan_v v_threshold v_reset soft_reset X V0 t n) as Hprev.
  { unfold v_prev. destruct t as [|t'].
    - simpl. unfold V0. by rewrite rd_at2.
    - rewrite HV, at2_tabulate2 by lia. done. }
  assert (h = chan_h v_threshold v_reset soft_reset X V0 t n) as Hh.
  { unfold h, chan_h, X. by rewrite Hprev, rd_at2. }
  rewrite HS, HV, HH, !tabulate2_lookup by done.
  split; [|split].
  - unfold chan_s, spike, of_bool, s. by rewrite Hh.
  - simpl. unfold reset, spike, of_bool, s. fold (chan_h v_threshold v_reset
      soft_reset X V0 t n). by rewrite <- Hh.
  - destruct save_intermediates; [|done].
    by rewrite tabulate2_lookup, Hh.
Qed.

(** With an exact fused multiply-add the kernel's gradient is the
    specification's formula, operand for operand. *)
Lemma grad_h_lane_spec (v_threshold v_reset : val) (soft_reset : bool)
    (sg_fn : val → val) (detach_reset : bool) (dS dV h acc : val) :
  fma_exact D →
  grad_h_lane v_threshold v_reset soft_reset sg_fn detach_reset dS dV h acc
  = spec_dH v_threshold v_reset soft_reset detach_reset dS (fadd dV acc)
            (sg_fn (fsub h v_threshold))
            (if fge h v_threshold then fone else fzero) h.
Proof.
  intros Hfma. unfold grad_h_lane, spec_dH, spike, of_bool.
  destruct soft_reset, detach_reset; by rewrite !Hfma.
Qed.

Lemma chan_acc_ext (v_threshold v_reset : val) (soft_reset : bool)
    (sg_fn : val → val) (detach_reset : bool)
    (dS dV H dS' dV' H' : nat → nat → val) (T k n : nat) :
  (∀ t, dS t n = dS' t n) → (∀ t, dV t n = dV' t n) →
  (∀ t, H t n = H' t n) →
  chan_acc v_threshold v_reset soft_reset sg_fn detach_reset dS dV H T k n
  = chan_acc v_threshold v_reset soft_reset sg_fn detach_reset dS' dV' H' T k n.
Proof.
  intros HS HV HH. induction k as [|k IH]; simpl; [done|].
  by rewrite IH, HS, HV, HH.
Qed.

(** C2.  After the backward kernel has been launched over the grid, for
    every time step [t < T] and channel [n < N], with the accumulator zero
    at [t = T - 1] and the gradient stored for step [t + 1] otherwise,
    [combined = dV[t] + accumulator], [sg = sg_fn (H[t] - v_threshold)] and
    [s = 1] if [H[t] >= v_threshold] else [0]: [dX[t]] holds the gradient
    [dH] the kernel computes with fused multiply-adds, and in an element
    type whose fused multiply-add is exact that gradient is the case split
    of the specification: [combined + dS[t] * sg];
    [combined + (dS[t] - v_threshold * combined) * sg];
    [combined * (1 - s) + dS[t] * sg];
    [combined * (1 - s) + (dS[t] + combined * (v_reset - H[t])) * sg]. *)
Theorem backward_recurrence (v_threshold v_reset : val) (T N B : nat)
    (sg_fn : val → val) (soft_reset detach_reset : bool)
    (sched : list nat) (st0 : state) (t n : nat) :
  0 < B → sched ≡ₚ seq 0 (cdiv N B) → bwd_heap_ok T N st0 →
  t < T → n < N →
  let st := exec (launch sched
                    (bwd_kernel v_threshold v_reset T N B sg_fn soft_reset
                                detach_reset)) st0 in
  let accumulator :=
    if decide (t = T - 1) then fzero
    else at2 (heap st grad_x_seq_buf) N (t + 1) n in
  let dS_t := at2 (heap st0 grad_s_seq_buf) N t n in
  let dV_t := at2 (heap st0 grad_v_seq_buf) N t n in
  let H_t := at2 (heap st0 h_seq_buf) N t n in
  let combined := fadd dV_t accumulator in
  let sg := sg_fn (fsub H_t v_threshold) in
  let s := if fge H_t v_threshold then fone else fzero in
  heap st grad_x_seq_buf !! (t * N + n)
  = Some (grad_h_lane v_threshold v_reset soft_reset sg_fn detach_reset
                      dS_t dV_t H_t accumulator)
  ∧ (fma_exact D →
     heap st grad_x_seq_buf !! (t * N + n)
     = Some (spec_dH v_threshold v_reset soft_reset detach_reset
                     dS_t combined sg s H_t)).
Proof.
  intros HB Hperm (_ & _ & _ & Lx & Li) Ht Hn st acc dS_t dV_t H_t c sg s.
  destruct (bwd_launch_full v_threshold v_reset T N B sg_fn soft_reset
              detach_reset sched st0 HB Hperm Lx Li) as (HX & _ & _).
  fold st in HX.
  set (dS := rd (heap st0 grad_s_seq_buf) N) in *.
  set (dV := rd (heap st0 grad_v_seq_buf) N) in *.
  set (H := rd (heap st0 h_seq_buf) N) in *.
  assert (heap st grad_x_seq_buf !! (t * N + n)
          = Some (grad_h_lane v_threshold v_reset soft_reset sg_fn detach_reset
                              dS_t dV_t H_t acc)) as Hx.
  { rewrite HX, tabulate2_lookup by done. f_equal.
    unfold chan_dx. replace (T - t) with (S (T - 1 - t)) by lia. simpl.
    replace (T - 1 - (T - 1 - t)) with t by lia.
    unfold dS, dV, H. rewrite !rd_at2 by done. f_equal.
    unfold acc. destruct (decide (t = T - 1)) as [->|Hne].
    - by replace (T - 1 - (T - 1)) with 0 by lia.
    - rewrite HX, at2_tabulate2 by lia. unfold chan_dx.
      by replace (T - (t + 1)) with (T - 1 - t) by lia. }
  split; [done|]. intros Hfma. rewrite Hx. f_equal.
  by apply grad_h_lane_spec.
Qed.

(** C3.  In the backward kernel the accumulator of every channel is zero
    before the first iteration, and after the launch [dV0] holds the
    accumulator as it is after all [T] iterations, the rows [T - 1] down
    to [0]; for [T >= 1] that is the gradient stored in [dX[0]]. *)
Theorem grad_v_init_accumulator (v_threshold v_reset : val) (T N B : nat)
    (sg_fn : val → val) (soft_reset detach_reset : bool)
    (sched : list nat) (st0 : state) (n : nat) :
  0 < B → sched ≡ₚ seq 0 (cdiv N B) → bwd_heap_ok T N st0 → n < N →
  let st := exec (launch sched
                    (bwd_kernel v_threshold v_reset T N B sg_fn soft_reset
                                detach_reset)) st0 in
  let accumulator :=
    chan_acc v_threshold v_reset soft_reset sg_fn detach_reset
             (at2 (heap st0 grad_s_seq_buf) N)
             (at2 (heap st0 grad_v_seq_buf) N)
             (at2 (heap st0 h_seq_buf) N) T in
  accumulator 0 n = fzero
  ∧ heap st grad_v_init_buf !! n = Some (accumulator T n)
  ∧ (0 < T →
     heap st grad_v_init_buf !! n = heap st grad_x_seq_buf !! (0 * N + n)).
Proof.
  intros HB Hperm (_ & _ & _ & Lx & Li) Hn st acc.
  destruct (bwd_launch_full v_threshold v_reset T N B sg_fn soft_reset
              detach_reset sched st0 HB Hperm Lx Li) as (HX & HI & _).
  fold st in HX, HI. split; [done|].
  assert (heap st grad_v_init_buf !! n = Some (acc T n)) as Hacc.
  { rewrite HI. change n with (0 * N + n) at 1.
    rewrite tabulate2_lookup by lia. f_equal. unfold acc.
    apply chan_acc_ext; intros t; by apply rd_at2. }
  split; [done|]. intros HT.
  rewrite Hacc, HX, tabulate2_lookup by lia. f_equal.
  unfold acc, chan_dx. rewrite Nat.sub_0_r. symmetry.
  apply chan_acc_ext; intros t; by apply rd_at2.
Qed.

(** C4.  On valid inputs the inference entry point returns the [S] and [V]
    that the training entry point returns, whatever block size, schedule
    and uninitialised memory either of them runs with; it returns them
    whenever the time axis is not empty; and its launch, which is given no
    [H] pointer, leaves the [H] buffer as it was. *)
Theorem inference_matches_training (e e' : launch_env) (x_seq : tensor)
    (v_init : list val) (v_threshold v_reset : val) (soft_reset : bool) :
  env_ok e → env_ok e' → wf_tensor x_seq → length v_init = numel0 x_seq →
  multistep_if_inference e x_seq v_init v_threshold v_reset soft_reset
  = (λ r, (r.1.1, r.1.2))
      <$> multistep_if_forward e' x_seq v_init v_threshold v_reset soft_reset
  ∧ (shape0 x_seq ≠ 0 →
     is_Some (multistep_if_inference e x_seq v_init v_threshold v_reset
                                     soft_reset))
  ∧ (∀ st0 : state,
       heap (exec (launch (sched e (cdiv (numel0 x_seq) (BLOCK_NCL e)))
                     (fwd_kernel v_threshold v_reset (shape0 x_seq)
                                 (numel0 x_seq) (BLOCK_NCL e) soft_reset
                                 false)) st0) h_seq_buf
       = heap st0 h_seq_buf).
Proof.
  intros He He' _ _.
  destruct (decide (shape0 x_seq = 0)) as [HT|HT].
  - destruct (entry_points_empty e x_seq v_init v_threshold v_reset
                soft_reset HT) as [_ ->].
    destruct (entry_points_empty e' x_seq v_init v_threshold v_reset
                soft_reset HT) as [-> _].
    split; [done|]. split; [done|]. intros st0.
    by destruct (fwd_launch v_threshold v_reset (shape0 x_seq) (numel0 x_seq)
                   (BLOCK_NCL e) soft_reset false (proj1 He) st0
                   (sched e (cdiv (numel0 x_seq) (BLOCK_NCL e))))
      as (_ & _ & _ & ? & _).
  - rewrite multistep_if_inference_eq, multistep_if_forward_eq by done.
    split; [done|]. split; [done|]. intros st0.
    by destruct (fwd_launch v_threshold v_reset (shape0 x_seq) (numel0 x_seq)
                   (BLOCK_NCL e) soft_reset false (proj1 He) st0
                   (sched e (cdiv (numel0 x_seq) (BLOCK_NCL e))))
      as (_ & _ & _ & ? & _).
Qed.

(** C5.  The tensors the three entry points return do not depend on the
    launch environment: two sound environments, with different block sizes
    and different orders of the program instances, give the same [S], [V],
    [H], [dX] and [dV0]. *)
Theorem block_size_independence (e e' : launch_env)
    (x_seq : tensor) (v_init : list val)
    (grad_s_seq grad_v_seq h_seq : tensor) (v_threshold v_reset : val)
    (sg_fn : val → val) (soft_reset detach_reset : bool) :
  env_ok e → env_ok e' →
  wf_tensor grad_v_seq → numel0 grad_v_seq = numel0 grad_s_seq →
  multistep_if_forward e x_seq v_init v_threshold v_reset soft_reset
  = multistep_if_forward e' x_seq v_init v_threshold v_reset soft_reset
  ∧ multistep_if_inference e x_seq v_init v_threshold v_reset soft_reset
    = multistep_if_inference e' x_seq v_init v_threshold v_reset soft_reset
  ∧ multistep_if_backward e grad_s_seq grad_v_seq h_seq v_threshold v_reset
                          sg_fn soft_reset detach_reset
    = multistep_if_backward e' grad_s_seq grad_v_seq h_seq v_threshold v_reset
                            sg_fn soft_reset detach_reset.
Proof.
  intros He He' Hwf HN. split; [|split].
  - destruct (decide (shape0 x_seq = 0)) as [HT|HT].
    + by rewrite !(proj1 (entry_points_empty _ _ _ _ _ _ HT)).
    + by rewrite !multistep_if_forward_eq.
  - destruct (decide (shape0 x_seq = 0)) as [HT|HT].
    + by rewrite !(proj2 (entry_points_empty _ _ _ _ _ _ HT)).
    + by rewrite !multistep_if_inference_eq.
  - destruct (decide (shape0 grad_s_seq = 0)) as [HT|HT];
      [|destruct (decide (shape0 grad_v_seq = 0)) as [HTv|HTv]].
    + unfold multistep_if_backward, first_numel, first_slice.
      by rewrite !(decide_True _ _ HT).
    + unfold multistep_if_backward, first_numel, first_slice.
      rewrite !(decide_False _ _ HT), !(decide_True _ _ HTv). done.
    + by rewrite !multistep_if_backward_eq.
Qed.

(** C8.  Under soft reset no output depends on [v_reset]: the kernels, and
    with them the three entry points, are the same for any two values of
    [v_reset]. *)
Theorem soft_reset_ignores_v_reset (e : launch_env)
    (x_seq : tensor) (v_init : list val)
    (grad_s_seq grad_v_seq h_seq : tensor)
    (v_threshold v_reset v_reset' : val) (T N B : nat)
    (sg_fn : val → val) (save_intermediates detach_reset : bool) :
  fwd_kernel v_threshold v_reset T N B true save_intermediates
  = fwd_kernel v_threshold v_reset' T N B true save_intermediates
  ∧ bwd_kernel v_threshold v_reset T N B sg_fn true detach_reset
    = bwd_kernel v_threshold v_reset' T N B sg_fn true detach_reset
  ∧ multistep_if_forward e x_seq v_init v_threshold v_reset true
    = multistep_if_forward e x_seq v_init v_threshold v_reset' true
  ∧ multistep_if_inference e x_seq v_init v_threshold v_reset true
    = multistep_if_inference e x_seq v_init v_threshold v_reset' true
  ∧ multistep_if_backward e grad_s_seq grad_v_seq h_seq v_threshold v_reset
                          sg_fn true detach_reset
    = multistep_if_backward e grad_s_seq grad_v_seq h_seq v_threshold v_reset'
                            sg_fn true detach_reset.
Proof. repeat split. Qed.

(** C9.  The outputs [S], [V] of the op's forward call and the [H] it
    saves are the same for both values of [detach_reset]: the entry points
    and the forward kernel have no such parameter, the flag is only stored
    for the backward call. *)
Theorem forward_ignores_detach_reset (e : launch_env) (ctx : context)
    (x_seq : tensor) (v_init : list val) (v_threshold : val)
    (v_reset : option val) (detach_reset detach_reset' : bool)
    (sg_fn : val → val) :
  (λ r, (r.1.1, r.1.2, saved_tensors r.2))
    <$> forward e ctx x_seq v_init v_threshold v_reset detach_reset sg_fn
  = (λ r, (r.1.1, r.1.2, saved_tensors r.2))
      <$> forward e ctx x_seq v_init v_threshold v_reset detach_reset' sg_fn.
Proof.
  unfold forward. destruct (existsb id (needs_input_grad ctx)).
  - by destruct (multistep_if_forward _ _ _ _ _ _) as [[[??]?]|].
  - by destruct (multistep_if_inference _ _ _ _ _ _) as [[??]|].
Qed.

Lemma tabulate2_const (c : val) (T N : nat) :
  tabulate2 (λ _ _, c) T N = replicate (T * N) c.
Proof.
  unfold tabulate2. generalize 0. generalize (T * N).
  induction n as [|n IH]; intros k; csimpl; [done|]. by rewrite IH.
Qed.

Lemma cdiv_1 (N : nat) : cdiv N 1 = N.
Proof. unfold cdiv. rewrite Nat.div_1_r. lia. Qed.

(** C10.  With an empty time axis the reverse range is empty, so that a
    program instance of the backward kernel is nothing but the final store
    of the zero accumulator; after the launch [dV0] is zero on all [N]
    channels and the empty [dX] is still empty, whatever the parameters and
    [sg_fn]. *)
Theorem backward_empty_time_axis (v_threshold v_reset : val) (N B : nat)
    (sg_fn : val → val) (soft_reset detach_reset : bool)
    (sched : list nat) (st0 : state) :
  0 < B → sched ≡ₚ seq 0 (cdiv N B) →
  length (heap st0 grad_x_seq_buf) = 0 →
  length (heap st0 grad_v_init_buf) = N →
  let st := exec (launch sched
                    (bwd_kernel v_threshold v_reset 0 N B sg_fn soft_reset
                                detach_reset)) st0 in
  static_range (Z.of_nat 0 - 1) (-1) (-1) = []
  ∧ (∀ pid st',
       bwd_kernel v_threshold v_reset 0 N B sg_fn soft_reset detach_reset
                  pid st'
       = tl_store (make_block_ptr grad_v_init_buf (1, N) (N, 1) (0, pid * B)
                                  (1, B))
                  (tl_zeros B) st')
  ∧ heap st grad_v_init_buf = replicate N fzero
  ∧ heap st grad_x_seq_buf = [].
Proof.
  intros HB Hperm Lx Li st.
  destruct (bwd_launch_full v_threshold v_reset 0 N B sg_fn soft_reset
              detach_reset sched st0 HB Hperm Lx Li) as (HX & HI & _).
  fold st in HX, HI. split; [done|]. split; [done|]. split.
  - rewrite HI. simpl. rewrite tabulate2_const. f_equal. lia.
  - by rewrite HX.
Qed.

(** C6.  For every number of channels, a multiple of the block size or
    not, and in both kernels: a lane whose column is at or beyond [N] loads
    zero; every element that the launch reads or writes has its column
    below [N] and its row inside the tensor; and every buffer is, after the
    launch, what it is after a launch with blocks of one channel, in which
    no block is partial. *)
Theorem boundary_masking (v_threshold v_reset : val) (T N B : nat)
    (sg_fn : val → val) (soft_reset save_intermediates detach_reset : bool)
    (sched : list nat) (stf stb : state) :
  0 < B → sched ≡ₚ seq 0 (cdiv N B) →
  fwd_heap_ok T N save_intermediates stf → bwd_heap_ok T N stb →
  log stf = [] → log stb = [] →
  let fwd B sched :=
    exec (launch sched (fwd_kernel v_threshold v_reset T N B soft_reset
                                   save_intermediates)) stf in
  let bwd B sched :=
    exec (launch sched (bwd_kernel v_threshold v_reset T N B sg_fn soft_reset
                                   detach_reset)) stb in
  (∀ (bs : buffer) (T' t pid i : nat) (st : state),
     i < B → N ≤ pid * B + i →
     (tl_load (make_block_ptr bs (T', N) (N, 1) (t, pid * B) (1, B)) st).1 !! i
     = Some fzero)
  ∧ Forall (access_ok T N) (log (fwd B sched))
  ∧ Forall (access_ok T N) (log (bwd B sched))
  ∧ (∀ b, heap (fwd B sched) b = heap (fwd 1 (seq 0 N)) b)
  ∧ (∀ b, heap (bwd B sched) b = heap (bwd 1 (seq 0 N)) b).
Proof.
  intros HB Hperm (_ & _ & Ls & Lv & Lh) (_ & _ & _ & Lx & Li) Hlf Hlb fwd bwd.
  assert (seq 0 N ≡ₚ seq 0 (cdiv N 1)) as Hperm1 by by rewrite cdiv_1.
  split; [|split; [|split; [|split]]].
  - intros bs T' t pid i st Hi Hpad. rewrite tl_load_run. simpl.
    rewrite list_lookup_fmap, lookup_seq_lt by done. simpl.
    by rewrite rd_padding.
  - destruct (fwd_launch v_threshold v_reset T N B soft_reset
                save_intermediates HB stf sched) as (_ & _ & _ & _ & Hlog).
    apply Hlog. by rewrite Hlf.
  - destruct (bwd_launch v_threshold v_reset T N B sg_fn soft_reset
                detach_reset HB stb sched) as (_ & _ & _ & Hlog).
    apply Hlog. by rewrite Hlb.
  - intros b. unfold fwd.
    destruct (fwd_launch_full v_threshold v_reset T N B soft_reset
                save_intermediates sched stf HB Hperm Ls Lv Lh)
      as (HS & HV & HH & Hfr).
    destruct (fwd_launch_full v_threshold v_reset T N 1 soft_reset
                save_intermediates (seq 0 N) stf Nat.lt_0_1 Hperm1 Ls Lv Lh)
      as (HS1 & HV1 & HH1 & Hfr1).
    destruct (decide (b = s_seq_buf)) as [->|?]; [congruence|].
    destruct (decide (b = v_seq_buf)) as [->|?]; [congruence|].
    destruct (decide (b = h_seq_buf)) as [->|?]; [congruence|].
    by rewrite Hfr, Hfr1.
  - intros b. unfold bwd.
    destruct (bwd_launch_full v_threshold v_reset T N B sg_fn soft_reset
                detach_reset sched stb HB Hperm Lx Li) as (HX & HI & Hfr).
    destruct (bwd_launch_full v_threshold v_reset T N 1 sg_fn soft_reset
                detach_reset (seq 0 N) stb Nat.lt_0_1 Hperm1 Lx Li)
      as (HX1 & HI1 & Hfr1).
    destruct (decide (b = grad_x_seq_buf)) as [->|?]; [congruence|].
    destruct (decide (b = grad_v_init_buf)) as [->|?]; [congruence|].
    by rewrite Hfr, Hfr1.
Qed.

(** C7.  A forward call of the op on a non-empty time axis returns:
    [v_reset = None] runs the kernels with [soft_reset = true] and a
    [v_reset] of zero, [v_reset = Some r] with [soft_reset = false] and
    [r].  If no input needs a gradient the result is that of the
    inference entry point and the context is left as it was.  Otherwise
    the result is [S], [V] of the training entry point, the context holds
    [H], the threshold, the reset value, the two flags and [sg_fn], and the
    backward call on that context returns the [dX] and [dV0] of the
    backward entry point on these, followed by four [None]. *)
Theorem op_wrapper (e : launch_env) (ctx : context) (x_seq : tensor)
    (v_init : list val) (v_threshold : val) (v_reset : option val)
    (detach_reset : bool) (sg_fn : val → val) :
  shape0 x_seq ≠ 0 →
  let soft_reset := match v_reset with None => true | Some _ => false end in
  let r := match v_reset with None => fzero | Some r => r end in
  ∃ s_seq v_seq ctx',
    forward e ctx x_seq v_init v_threshold v_reset detach_reset sg_fn
    = Some (s_seq, v_seq, ctx')
    ∧ if existsb id (needs_input_grad ctx) then
        ∃ h_seq,
          multistep_if_forward e x_seq v_init v_threshold r soft_reset
          = Some (s_seq, v_seq, h_seq)
          ∧ ctx' = Context (needs_input_grad ctx) [h_seq] (Some v_threshold)
                           (Some r) (Some soft_reset) (Some detach_reset)
                           (Some sg_fn)
          ∧ ∀ e' grad_s_seq grad_v_seq,
              backward e' ctx' grad_s_seq grad_v_seq
              = (λ g, (Some g.1, Some g.2, None, None, None, None))
                  <$> multistep_if_backward e' grad_s_seq grad_v_seq h_seq
                        v_threshold r sg_fn soft_reset detach_reset
      else
        multistep_if_inference e x_seq v_init v_threshold r soft_reset
        = Some (s_seq, v_seq)
        ∧ ctx' = ctx.
Proof.
  intros HT soft_reset r. unfold forward.
  assert (bool_decide (v_reset = None) = soft_reset) as ->.
  { unfold soft_reset. by destruct v_reset. }
  fold r. destruct (existsb id (needs_input_grad ctx)).
  - destruct (multistep_if_forward e x_seq v_init v_threshold r soft_reset)
      as [[[s v] h]|] eqn:E.
    + simpl. eexists s, v, _. split; [done|]. exists h.
      split; [done|]. split; [done|]. intros e' gs gv.
      unfold backward. simpl.
      by destruct (multistep_if_backward _ _ _ _ _ _ _ _ _) as [[??]|].
    + unfold multistep_if_forward, first_numel, first_slice in E.
      by rewrite decide_False in E.
  - destruct (multistep_if_inference e x_seq v_init v_threshold r soft_reset)
      as [[s v]|] eqn:E.
    + simpl. by eexists s, v, _.
    + unfold multistep_if_inference, first_numel, first_slice in E.
      by rewrite decide_False in E.
Qed.

End Claims.

(** ** Concrete runs

    The sample launch, evaluated: channel 0 crosses the threshold 10 from
    6 + 5, channel 1 stays below it, channel 2 reaches it exactly. *)

Example forward_hard_reset :
  multistep_if_forward (Sample.env 2 true) Sample.x_seq [6; 2; 0]%Z
                       10%Z 0%Z false
  = Some (Tensor 2 3 [1; 0; 1; 0; 0; 0]%Z,
          Tensor 2 3 [0; 5; 0; 5; 8; 0]%Z,
          Tensor 2 3 [11; 5; 10; 5; 8; 0]%Z).
Proof. vm_compute. reflexivity. Qed.

Example forward_soft_reset :
  multistep_if_forward (Sample.env 2 true) Sample.x_seq [6; 2; 0]%Z
                       10%Z 0%Z true
  = Some (Tensor 2 3 [1; 0; 1; 0; 0; 0]%Z,
          Tensor 2 3 [1; 5; 0; 6; 8; 0]%Z,
          Tensor 2 3 [11; 5; 10; 6; 8; 0]%Z).
Proof. vm_compute. reflexivity. Qed.

Example backward_soft_reset :
  multistep_if_backward (Sample.env 2 true) Sample.grad_s_seq
                        Sample.grad_v_seq Sample.h_seq 10%Z 0%Z
                        (λ x, (x * 2)%Z) true false
  = Some (Tensor 2 3 [-2487; 6343; 283; 130; 62; 282]%Z,
          [-2487; 6343; 283]%Z).
Proof. vm_compute. reflexivity. Qed.

(** [detach_reset] does change the gradients. *)
Example detach_reset_changes_gradients :
  multistep_if_backward (Sample.env 2 true) Sample.grad_s_seq
                        Sample.grad_v_seq Sample.h_seq 10%Z 0%Z
                        (λ x, (x * 2)%Z) true true
  ≠ multistep_if_backward (Sample.env 2 true) Sample.grad_s_seq
                          Sample.grad_v_seq Sample.h_seq 10%Z 0%Z
                          (λ x, (x * 2)%Z) true false.
Proof. vm_compute. discriminate. Qed.

(** The host entry points index the first slice of their input: on an
    empty time axis they raise before any launch. *)
Example backward_entry_point_empty :
  multistep_if_backward (Sample.env 2 true) (Tensor 0 3 []) (Tensor 0 3 [])
                        (Tensor 0 3 []) 10%Z 0%Z (λ x, (x * 2)%Z) true false
  = None.
Proof. reflexivity. Qed.

(** ** Instances of the theorems *)

Lemma forward_recurrence_witness :
  let st := exec (launch [1; 0]
                    (fwd_kernel (D := Z_dtype) 10%Z 0%Z 2 3 2 false true))
                 Sample.fwd_state in
  let v_prev := at2 (heap st v_seq_buf) 3 0 2 in
  let h := fadd v_prev (at2 (heap Sample.fwd_state x_seq_buf) 3 1 2) in
  let s := if fge h 10%Z then fone else fzero in
  heap st s_seq_buf !! (1 * 3 + 2) = Some s
  ∧ heap st v_seq_buf !! (1 * 3 + 2)
    = Some (fadd (fmul s 0%Z) (fmul (fsub fone s) h))
  ∧ heap st h_seq_buf !! (1 * 3 + 2) = Some h.
Proof.
  apply (forward_recurrence (D := Z_dtype) 10%Z 0%Z 2 3 2 false true [1; 0]
           Sample.fwd_state 1 2).
  - lia.
  - apply perm_swap.
  - repeat split.
  - lia.
  - lia.
Defined.

Lemma backward_recurrence_witness :
  fma_exact Z_dtype
  ∧ (let st := exec (launch [1; 0]
                       (bwd_kernel (D := Z_dtype) 10%Z 0%Z 2 3 2
                                   (λ x, (x * 2)%Z) true false))
                    Sample.bwd_state in
     let accumulator :=
       if decide (0 = 2 - 1) then fzero
       else at2 (heap st grad_x_seq_buf) 3 (0 + 1) 2 in
     let dS_t := at2 (heap Sample.bwd_state grad_s_seq_buf) 3 0 2 in
     let dV_t := at2 (heap Sample.bwd_state grad_v_seq_buf) 3 0 2 in
     let H_t := at2 (heap Sample.bwd_state h_seq_buf) 3 0 2 in
     let combined := fadd dV_t accumulator in
     let sg := (λ x, (x * 2)%Z) (fsub H_t 10%Z) in
     let s := if fge H_t 10%Z then fone else fzero in
     heap st grad_x_seq_buf !! (0 * 3 + 2)
     = Some (grad_h_lane 10%Z 0%Z true (λ x, (x * 2)%Z) false
                         dS_t dV_t H_t accumulator)
     ∧ (fma_exact Z_dtype →
        heap st grad_x_seq_buf !! (0 * 3 + 2)
        = Some (spec_dH 10%Z 0%Z true false dS_t combined sg s H_t))).
Proof.
  split.
  - intros a b c. simpl. lia.
  - apply (backward_recurrence (D := Z_dtype) 10%Z 0%Z 2 3 2
             (λ x, (x * 2)%Z) true false [1; 0] Sample.bwd_state 0 2).
    + lia.
    + apply perm_swap.
    + repeat split.
    + lia.
    + lia.
Defined.

Lemma grad_v_init_accumulator_witness :
  let st := exec (launch [1; 0]
                    (bwd_kernel (D := Z_dtype) 10%Z 0%Z 2 3 2
                                (λ x, (x * 2)%Z) true false))
                 Sample.bwd_state in
  let accumulator :=
    chan_acc 10%Z 0%Z true (λ x, (x * 2)%Z) false
             (at2 (heap Sample.bwd_state grad_s_seq_buf) 3)
             (at2 (heap Sample.bwd_state grad_v_seq_buf) 3)
             (at2 (heap Sample.bwd_state h_seq_buf) 3) 2 in
  accumulator 0 2 = fzero
  ∧ heap st grad_v_init_buf !! 2 = Some (accumulator 2 2)
  ∧ (0 < 2 →
     heap st grad_v_init_buf !! 2 = heap st grad_x_seq_buf !! (0 * 3 + 2)).
Proof.
  apply (grad_v_init_accumulator (D := Z_dtype) 10%Z 0%Z 2 3 2
           (λ x, (x * 2)%Z) true false [1; 0] Sample.bwd_state 2).
  - lia.
  - apply perm_swap.
  - repeat split.
  - lia.
Defined.

Lemma inference_matches_training_witness :
  multistep_if_inference (Sample.env 2 true) Sample.x_seq [6; 2; 0]%Z
                         10%Z 0%Z false
  = (λ r, (r.1.1, r.1.2))
      <$> multistep_if_forward (Sample.env 1 false) Sample.x_seq [6; 2; 0]%Z
                               10%Z 0%Z false.
Proof.
  refine (proj1 (inference_matches_training (D := Z_dtype)
                   (Sample.env 2 true) (Sample.env 1 false) Sample.x_seq
                   [6; 2; 0]%Z 10%Z 0%Z false _ _ _ _)).
  - apply Sample.env_ok_env. lia.
  - apply Sample.env_ok_env. lia.
  - reflexivity.
  - reflexivity.
Defined.

Lemma block_size_independence_witness :
  multistep_if_forward (Sample.env 2 true) Sample.x_seq [6; 2; 0]%Z
                       10%Z 0%Z false
  = multistep_if_forward (Sample.env 128 false) Sample.x_seq [6; 2; 0]%Z
                         10%Z 0%Z false
  ∧ multistep_if_inference (Sample.env 2 true) Sample.x_seq [6; 2; 0]%Z
                           10%Z 0%Z false
    = multistep_if_inference (Sample.env 128 false) Sample.x_seq [6; 2; 0]%Z
                             10%Z 0%Z false
  ∧ multistep_if_backward (Sample.env 2 true) Sample.grad_s_seq
                          Sample.grad_v_seq Sample.h_seq 10%Z 0%Z
                          (λ x, (x * 2)%Z) false false
    = multistep_if_backward (Sample.env 128 false) Sample.grad_s_seq
                            Sample.grad_v_seq Sample.h_seq 10%Z 0%Z
                            (λ x, (x * 2)%Z) false false.
Proof.
  apply (block_size_independence (D := Z_dtype)
           (Sample.env 2 true) (Sample.env 128 false)).
  - apply Sample.env_ok_env. lia.
  - apply Sample.env_ok_env. lia.
  - reflexivity.
  - reflexivity.
Defined.

Lemma boundary_masking_witness :
  let fwd B sched :=
    exec (launch sched (fwd_kernel (D := Z_dtype) 10%Z 0%Z 2 3 B false true))
         Sample.fwd_state in
  let bwd B sched :=
    exec (launch sched (bwd_kernel (D := Z_dtype) 10%Z 0%Z 2 3 B
                                   (λ x, (x * 2)%Z) false false))
         Sample.bwd_state in
  (∀ (bs : buffer) (T' t pid i : nat) (st : state),
     i < 2 → 3 ≤ pid * 2 + i →
     (tl_load (make_block_ptr bs (T', 3) (3, 1) (t, pid * 2) (1, 2)) st).1 !! i
     = Some fzero)
  ∧ Forall (access_ok 2 3) (log (fwd 2 [1; 0]))
  ∧ Forall (access_ok 2 3) (log (bwd 2 [1; 0]))
  ∧ (∀ b, heap (fwd 2 [1; 0]) b = heap (fwd 1 (seq 0 3)) b)
  ∧ (∀ b, heap (bwd 2 [1; 0]) b = heap (bwd 1 (seq 0 3)) b).
Proof.
  apply (boundary_masking (D := Z_dtype) 10%Z 0%Z 2 3 2 (λ x, (x * 2)%Z)
           false true false [1; 0] Sample.fwd_state Sample.bwd_state).
  - lia.
  - apply perm_swap.
  - repeat split.
  - repeat split.
  - reflexivity.
  - reflexivity.
Defined.

Lemma op_wrapper_witness :
  let soft_reset :=
    match @None Z with None => true | Some _ => false end in
  let r := match @None Z with None => fzero | Some r => r end in
  ∃ s_seq v_seq ctx',
    forward (Sample.env 2 true) Sample.ctx0 Sample.x_seq [6; 2; 0]%Z 10%Z
            None true (λ x, (x * 2)%Z)
    = Some (s_seq, v_seq, ctx')
    ∧ if existsb id (needs_input_grad Sample.ctx0) then
        ∃ h_seq,
          multistep_if_forward (Sample.env 2 true) Sample.x_seq [6; 2; 0]%Z
                               10%Z r soft_reset
          = Some (s_seq, v_seq, h_seq)
          ∧ ctx' = Context (needs_input_grad Sample.ctx0) [h_seq] (Some 10%Z)
                           (Some r) (Some soft_reset) (Some true)
                           (Some (λ x, (x * 2)%Z))
          ∧ ∀ e' grad_s_seq grad_v_seq,
              backward e' ctx' grad_s_seq grad_v_seq
              = (λ g, (Some g.1, Some g.2, None, None, None, None))
                  <$> multistep_if_backward e' grad_s_seq grad_v_seq h_seq
                        10%Z r (λ x, (x * 2)%Z) soft_reset true
      else
        multistep_if_inference (Sample.env 2 true) Sample.x_seq [6; 2; 0]%Z
                               10%Z r soft_reset
        = Some (s_seq, v_seq)
        ∧ ctx' = Sample.ctx0.
Proof.
  apply (op_wrapper (D := Z_dtype) (Sample.env 2 true) Sample.ctx0
           Sample.x_seq [6; 2; 0]%Z 10%Z None true (λ x, (x * 2)%Z)).
  simpl. lia.
Defined.

Lemma backward_empty_time_axis_witness :
  let st := exec (launch [1; 0]
                    (bwd_kernel (D := Z_dtype) 10%Z 0%Z 0 3 2
                                (λ x, (x * 2)%Z) false false))
                 Sample.empty_state in
  static_range (Z.of_nat 0 - 1) (-1) (-1) = []
  ∧ (∀ pid st',
       bwd_kernel (D := Z_dtype) 10%Z 0%Z 0 3 2 (λ x, (x * 2)%Z) false false
                  pid st'
       = tl_store (make_block_ptr grad_v_init_buf (1, 3) (3, 1) (0, pid * 2)
                                  (1, 2))
                  (tl_zeros 2) st')
  ∧ heap st grad_v_init_buf = replicate 3 fzero
  ∧ heap st grad_x_seq_buf = [].
Proof.
  apply (backward_empty_time_axis (D := Z_dtype) 10%Z 0%Z 3 2
           (λ x, (x * 2)%Z) false false [1; 0] Sample.empty_state).
  - lia.
  - apply perm_swap.
  - reflexivity.
  - reflexivity.
Defined.

(** * Further properties of the kernels and of the host code *)

Section Outputs.
Context {D : Dtype}.

(** ** The outputs as functions of the saved pre-reset potential *)

Lemma tabulate2_fmap (f : val → val) (G : nat → nat → val) (T N : nat) :
  f <$> tabulate2 G T N = tabulate2 (λ t n, f (G t n)) T N.
Proof. unfold tabulate2. by rewrite <- list_fmap_compose. Qed.

Lemma forward_some_nonempty (e : launch_env) (x_seq : tensor)
    (v_init : list val) (v_threshold v_reset : val) (soft_reset : bool) r :
  multistep_if_forward e x_seq v_init v_threshold v_reset soft_reset = Some r →
  shape0 x_seq ≠ 0.
Proof.
  intros E HT.
  by rewrite (proj1 (entry_points_empty _ _ _ _ _ _ HT)) in E.
Qed.

Lemma inference_some_nonempty (e : launch_env) (x_seq : tensor)
    (v_init : list val) (v_threshold v_reset : val) (soft_reset : bool) r :
  multistep_if_inference e x_seq v_init v_threshold v_reset soft_reset
  = Some r →
  shape0 x_seq ≠ 0.
Proof.
  intros E HT.
  by rewrite (proj2 (entry_points_empty _ _ _ _ _ _ HT)) in E.
Qed.

(** X1.  Every element of the spike tensor returned by the training and
    by the inference entry point is one or zero. *)
Theorem spikes_binary (e : launch_env) (x_seq : tensor) (v_init : list val)
    (v_threshold v_reset : val) (soft_reset : bool)
    (s_seq v_seq h_seq s_seq' v_seq' : tensor) :
  env_ok e →
  multistep_if_forward e x_seq v_init v_threshold v_reset soft_reset
  = Some (s_seq, v_seq, h_seq) →
  multistep_if_inference e x_seq v_init v_threshold v_reset soft_reset
  = Some (s_seq', v_seq') →
  Forall (λ s, s = fone ∨ s = fzero) (data s_seq)
  ∧ Forall (λ s, s = fone ∨ s = fzero) (data s_seq').
Proof.
  intros He E E'. pose proof (forward_some_nonempty _ _ _ _ _ _ _ E) as HT.
  rewrite multistep_if_forward_eq in E by done.
  rewrite multistep_if_inference_eq in E' by done.
  injection E as <- _ _. injection E' as <- _. simpl.
  assert (Forall (λ s : val, s = fone ∨ s = fzero)
            (tabulate2 (chan_s v_threshold v_reset soft_reset
                          (rd (data x_seq) (numel0 x_seq))
                          (rd v_init (numel0 x_seq) 0))
                       (shape0 x_seq) (numel0 x_seq))); [|done].
  unfold tabulate2. apply Forall_fmap, Forall_forall. intros k _. simpl.
  unfold chan_s, spike, of_bool. destruct (fge _ _); auto.
Qed.

(** X2.  The spikes and the potentials returned by the training entry
    point are element-wise functions of the pre-reset potential it
    returns: [S = (H >= v_threshold)] as ones and zeros, and [V] is the
    reset rule applied to [H].  The backward kernel rebuilds the spikes
    from [H] with the same comparison. *)
Theorem outputs_from_h_seq (e : launch_env) (x_seq : tensor)
    (v_init : list val) (v_threshold v_reset : val) (soft_reset : bool)
    (s_seq v_seq h_seq : tensor) :
  env_ok e →
  multistep_if_forward e x_seq v_init v_threshold v_reset soft_reset
  = Some (s_seq, v_seq, h_seq) →
  data s_seq
  = (λ h, if fge h v_threshold then fone else fzero) <$> data h_seq
  ∧ data v_seq
    = (λ h, let s := if fge h v_threshold then fone else fzero in
            if soft_reset then fsub h (fmul s v_threshold)
            else fadd (fmul s v_reset) (fmul (fsub fone s) h))
        <$> data h_seq.
Proof.
  intros He E. pose proof (forward_some_nonempty _ _ _ _ _ _ _ E) as HT.
  rewrite multistep_if_forward_eq in E by done.
  injection E as <- <- <-. simpl. by rewrite !tabulate2_fmap.
Qed.



End Outputs.

(** The tensors the sample launch returns. *)
Module SampleOut.

Definition s_seq : tensor (D := Z_dtype) := Tensor 2 3 [1; 0; 1; 0; 0; 0]%Z.
Definition v_hard : tensor (D := Z_dtype) := Tensor 2 3 [0; 5; 0; 5; 8; 0]%Z.
Definition h_hard : tensor (D := Z_dtype) := Tensor 2 3 [11; 5; 10; 5; 8; 0]%Z.
Definition v_soft : tensor (D := Z_dtype) := Tensor 2 3 [1; 5; 0; 6; 8; 0]%Z.

End SampleOut.


Lemma spikes_binary_witness :
  Forall (λ s : Z, s = fone ∨ s = fzero) (data SampleOut.s_seq)
  ∧ Forall (λ s : Z, s = fone ∨ s = fzero) (data SampleOut.s_seq).
Proof.
  apply (spikes_binary (D := Z_dtype) (Sample.env 2 true) Sample.x_seq
           [6; 2; 0]%Z 10%Z 0%Z false
           SampleOut.s_seq SampleOut.v_hard SampleOut.h_hard
           SampleOut.s_seq SampleOut.v_hard).
  - apply Sample.env_ok_env. lia.
  - vm_compute. reflexivity.
  - vm_compute. reflexivity.
Defined.

Lemma outputs_from_h_seq_witness :
  data SampleOut.s_seq
  = (λ h : Z, if fge h 10%Z then fone else fzero) <$> data SampleOut.h_hard
  ∧ data SampleOut.v_hard
    = (λ h : Z, let s := if fge h 10%Z then fone else fzero in
                if false then fsub h (fmul s 10%Z)
                else fadd (fmul s 0%Z) (fmul (fsub fone s) h))
        <$> data SampleOut.h_hard.
Proof.
  apply (outputs_from_h_seq (D := Z_dtype) (Sample.env 2 true) Sample.x_seq
           [6; 2; 0]%Z 10%Z 0%Z false).
  - apply Sample.env_ok_env. lia.
  - vm_compute. reflexivity.
Defined.


(** ** Locality: no interaction across channels, none against time *)

Section Locality.
Context {D : Dtype}.

Lemma chan_v_local (v_threshold v_reset : val) (soft_reset : bool)
    (X X' : nat → nat → val) (V0 V0' : nat → val) (t n : nat) :
  V0 n = V0' n → (∀ t', t' < t → X t' n = X' t' n) →
  chan_v v_threshold v_reset soft_reset X V0 t n
  = chan_v v_threshold v_reset soft_reset X' V0' t n.
Proof.
  intros HV. induction t as [|t IH]; intros HX; simpl; [done|].
  rewrite IH by (intros; apply HX; lia). by rewrite HX by lia.
Qed.

Lemma chan_acc_local (v_threshold v_reset : val) (soft_reset : bool)
    (sg_fn : val → val) (detach_reset : bool)
    (dS dV H dS' dV' H' : nat → nat → val) (T k n : nat) :
  (∀ t', T - k ≤ t' → dS t' n = dS' t' n) →
  (∀ t', T - k ≤ t' → dV t' n = dV' t' n) →
  (∀ t', T - k ≤ t' → H t' n = H' t' n) →
  chan_acc v_threshold v_reset soft_reset sg_fn detach_reset dS dV H T k n
  = chan_acc v_threshold v_reset soft_reset sg_fn detach_reset dS' dV' H' T k n.
Proof.
  induction k as [|k IH]; intros HS HV HH; simpl; [done|].
  rewrite IH by (intros; (apply HS || apply HV || apply HH); lia).
  by rewrite HS, HV, HH by lia.
Qed.

Lemma rd_agree (buf buf' : list val) (N t n : nat) :
  buf !! (t * N + n) = buf' !! (t * N + n) → rd buf N t n = rd buf' N t n.
Proof. intros E. unfold rd. by rewrite E. Qed.

(** X4.  An element of the forward outputs depends on nothing but its own
    channel up to its own time step: two inputs that agree on
    [v_init[n]] and on [x[0..t][n]] give the same [S[t][n]], [V[t][n]] and
    [H[t][n]], whatever the other channels, the later steps and the launch
    environments are. *)
Theorem forward_locality (e e' : launch_env) (x_seq x_seq' : tensor)
    (v_init v_init' : list val) (v_threshold v_reset : val)
    (soft_reset : bool) (t n : nat) :
  env_ok e → env_ok e' →
  shape0 x_seq = shape0 x_seq' → numel0 x_seq = numel0 x_seq' →
  t < shape0 x_seq → n < numel0 x_seq →
  v_init !! n = v_init' !! n →
  (∀ t', t' ≤ t →
     data x_seq !! (t' * numel0 x_seq + n)
     = data x_seq' !! (t' * numel0 x_seq + n)) →
  ∃ s v h s' v' h',
    multistep_if_forward e x_seq v_init v_threshold v_reset soft_reset
    = Some (s, v, h)
    ∧ multistep_if_forward e' x_seq' v_init' v_threshold v_reset soft_reset
      = Some (s', v', h')
    ∧ data s !! (t * numel0 x_seq + n) = data s' !! (t * numel0 x_seq + n)
    ∧ data v !! (t * numel0 x_seq + n) = data v' !! (t * numel0 x_seq + n)
    ∧ data h !! (t * numel0 x_seq + n) = data h' !! (t * numel0 x_seq + n).
Proof.
  intros He He' HT HN Ht Hn Hv Hx.
  rewrite !multistep_if_forward_eq by (done || lia).
  do 6 eexists. split; [done|]. split; [done|]. simpl.
  rewrite <- HT, <- HN, !tabulate2_lookup by done.
  assert (∀ t', t' ≤ t →
            chan_v v_threshold v_reset soft_reset
              (rd (data x_seq) (numel0 x_seq)) (rd v_init (numel0 x_seq) 0)
              t' n
            = chan_v v_threshold v_reset soft_reset
                (rd (data x_seq') (numel0 x_seq)) (rd v_init' (numel0 x_seq) 0)
                t' n) as HV.
  { intros t' Ht'. apply chan_v_local.
    - by apply rd_agree.
    - intros t'' ?. apply rd_agree, Hx. lia. }
  assert (rd (data x_seq) (numel0 x_seq) t n
          = rd (data x_seq') (numel0 x_seq) t n) as HX
    by by apply rd_agree, Hx.
  split; [|split].
  - unfold chan_s, chan_h. by rewrite HV, HX.
  - f_equal. simpl. by rewrite HV, HX.
  - unfold chan_h. by rewrite HV, HX.
Qed.

(** X5.  An element of [dX] depends on nothing but its own channel from
    its own time step on: two sets of inputs that agree on
    [dS[t..][n]], [dV[t..][n]] and [H[t..][n]] give the same [dX[t][n]],
    and the same [dV0[n]] when they agree on the whole channel. *)
Theorem backward_locality (e e' : launch_env)
    (grad_s_seq grad_v_seq h_seq grad_s_seq' grad_v_seq' h_seq' : tensor)
    (v_threshold v_reset : val) (sg_fn : val → val)
    (soft_reset detach_reset : bool) (t n : nat) :
  env_ok e → env_ok e' →
  shape0 grad_s_seq = shape0 grad_s_seq' →
  numel0 grad_s_seq = numel0 grad_s_seq' →
  wf_tensor grad_v_seq → wf_tensor grad_v_seq' →
  shape0 grad_v_seq ≠ 0 → shape0 grad_v_seq' ≠ 0 →
  numel0 grad_v_seq = numel0 grad_s_seq →
  numel0 grad_v_seq' = numel0 grad_s_seq →
  t < shape0 grad_s_seq → n < numel0 grad_s_seq →
  (∀ t', t ≤ t' →
     data grad_s_seq !! (t' * numel0 grad_s_seq + n)
     = data grad_s_seq' !! (t' * numel0 grad_s_seq + n)
     ∧ data grad_v_seq !! (t' * numel0 grad_s_seq + n)
       = data grad_v_seq' !! (t' * numel0 grad_s_seq + n)
     ∧ data h_seq !! (t' * numel0 grad_s_seq + n)
       = data h_seq' !! (t' * numel0 grad_s_seq + n)) →
  ∃ dx dv0 dx' dv0',
    multistep_if_backward e grad_s_seq grad_v_seq h_seq v_threshold v_reset
                          sg_fn soft_reset detach_reset
    = Some (dx, dv0)
    ∧ multistep_if_backward e' grad_s_seq' grad_v_seq' h_seq' v_threshold
                            v_reset sg_fn soft_reset detach_reset
      = Some (dx', dv0')
    ∧ data dx !! (t * numel0 grad_s_seq + n)
      = data dx' !! (t * numel0 grad_s_seq + n)
    ∧ (t = 0 → dv0 !! n = dv0' !! n).
Proof.
  intros He He' HT HN Hwf Hwf' HTv HTv' HNv HNv' Ht Hn Hagree.
  rewrite !multistep_if_backward_eq by (done || lia).
  do 4 eexists. split; [done|]. split; [done|]. simpl.
  rewrite <- HT, <- HN.
  assert (∀ k, shape0 grad_s_seq - k = t →
            chan_acc v_threshold v_reset soft_reset sg_fn detach_reset
              (rd (data grad_s_seq) (numel0 grad_s_seq))
              (rd (data grad_v_seq) (numel0 grad_s_seq))
              (rd (data h_seq) (numel0 grad_s_seq)) (shape0 grad_s_seq) k n
            = chan_acc v_threshold v_reset soft_reset sg_fn detach_reset
                (rd (data grad_s_seq') (numel0 grad_s_seq))
                (rd (data grad_v_seq') (numel0 grad_s_seq))
                (rd (data h_seq') (numel0 grad_s_seq)) (shape0 grad_s_seq) k n)
    as Hacc.
  { intros k Hk. apply chan_acc_local; intros t' Ht';
      apply rd_agree; apply Hagree; lia. }
  split.
  - rewrite !tabulate2_lookup by done. f_equal. unfold chan_dx.
    apply Hacc. lia.
  - intros ->. change n with (0 * numel0 grad_s_seq + n).
    rewrite !tabulate2_lookup by lia. f_equal. apply Hacc. lia.
Qed.

End Locality.

(** Inputs that agree with the sample on one channel only. *)
Module SampleAlt.

Definition x_seq : tensor (D := Z_dtype) :=
  Tensor 2 3 [5; 99; 98; 97; 96; 95]%Z.
Definition grad_s_seq : tensor (D := Z_dtype) :=
  Tensor 2 3 [9; 9; 9; 9; 9; 6]%Z.
Definition grad_v_seq : tensor (D := Z_dtype) :=
  Tensor 2 3 [8; 8; 8; 8; 8; 2]%Z.
Definition h_seq : tensor (D := Z_dtype) :=
  Tensor 2 3 [7; 7; 7; 7; 7; 0]%Z.

End SampleAlt.

Lemma forward_locality_witness :
  ∃ s v h s' v' h',
    multistep_if_forward (Sample.env 2 true) Sample.x_seq [6; 2; 0]%Z
                         10%Z 0%Z false
    = Some (s, v, h)
    ∧ multistep_if_forward (Sample.env 1 false) SampleAlt.x_seq [6; 50; 60]%Z
                           10%Z 0%Z false
      = Some (s', v', h')
    ∧ data s !! (0 * numel0 Sample.x_seq + 0)
      = data s' !! (0 * numel0 Sample.x_seq + 0)
    ∧ data v !! (0 * numel0 Sample.x_seq + 0)
      = data v' !! (0 * numel0 Sample.x_seq + 0)
    ∧ data h !! (0 * numel0 Sample.x_seq + 0)
      = data h' !! (0 * numel0 Sample.x_seq + 0).
Proof.
  apply (forward_locality (D := Z_dtype) (Sample.env 2 true)
           (Sample.env 1 false) Sample.x_seq SampleAlt.x_seq
           [6; 2; 0]%Z [6; 50; 60]%Z 10%Z 0%Z false 0 0).
  - apply Sample.env_ok_env. lia.
  - apply Sample.env_ok_env. lia.
  - reflexivity.
  - reflexivity.
  - simpl. lia.
  - simpl. lia.
  - reflexivity.
  - intros t' Ht'. assert (t' = 0) as -> by lia. reflexivity.
Defined.

Lemma backward_locality_witness :
  ∃ dx dv0 dx' dv0',
    multistep_if_backward (Sample.env 2 true) Sample.grad_s_seq
                          Sample.grad_v_seq Sample.h_seq 10%Z 0%Z
                          (λ x, (x * 2)%Z) false false
    = Some (dx, dv0)
    ∧ multistep_if_backward (Sample.env 1 false) SampleAlt.grad_s_seq
                            SampleAlt.grad_v_seq SampleAlt.h_seq 10%Z 0%Z
                            (λ x, (x * 2)%Z) false false
      = Some (dx', dv0')
    ∧ data dx !! (1 * numel0 Sample.grad_s_seq + 2)
      = data dx' !! (1 * numel0 Sample.grad_s_seq + 2)
    ∧ (1 = 0 → dv0 !! 2 = dv0' !! 2).
Proof.
  apply (backward_locality (D := Z_dtype) (Sample.env 2 true)
           (Sample.env 1 false) Sample.grad_s_seq Sample.grad_v_seq
           Sample.h_seq SampleAlt.grad_s_seq SampleAlt.grad_v_seq
           SampleAlt.h_seq 10%Z 0%Z (λ x, (x * 2)%Z) false false 1 2).
  - apply Sample.env_ok_env. lia.
  - apply Sample.env_ok_env. lia.
  - reflexivity.
  - reflexivity.
  - reflexivity.
  - reflexivity.
  - simpl. lia.
  - simpl. lia.
  - reflexivity.
  - reflexivity.
  - simpl. lia.
  - simpl. lia.
  - intros t' Ht'. destruct t' as [|[|t']]; [lia| |]; repeat split.
Defined.

(** ** What a launch leaves alone, and launching again *)

Section Launches.
Context {D : Dtype}.

(** X6.  Whatever the schedule is (a permutation of the grid or not), a
    launch of the forward kernel changes no buffer but [S], [V] and [H],
    does not change [H] either when intermediates are not saved, and
    changes the length of no buffer; a launch of the backward kernel
    changes no buffer but [dX] and [dV0], so it leaves the saved [H] as it
    is, and changes no length. *)
Theorem inputs_unchanged (v_threshold v_reset : val) (T N B : nat)
    (sg_fn : val → val) (soft_reset save_intermediates detach_reset : bool)
    (sched : list nat) (stf stb : state) :
  0 < B →
  let stf' := exec (launch sched
                      (fwd_kernel v_threshold v_reset T N B soft_reset
                                  save_intermediates)) stf in
  let stb' := exec (launch sched
                      (bwd_kernel v_threshold v_reset T N B sg_fn soft_reset
                                  detach_reset)) stb in
  (∀ b, b ≠ s_seq_buf → b ≠ v_seq_buf → b ≠ h_seq_buf →
        heap stf' b = heap stf b)
  ∧ (save_intermediates = false → heap stf' h_seq_buf = heap stf h_seq_buf)
  ∧ (∀ b, length (heap stf' b) = length (heap stf b))
  ∧ (∀ b, b ≠ grad_x_seq_buf → b ≠ grad_v_init_buf →
          heap stb' b = heap stb b)
  ∧ (∀ b, length (heap stb' b) = length (heap stb b)).
Proof.
  intros HB stf' stb'.
  destruct (fwd_launch v_threshold v_reset T N B soft_reset save_intermediates
              HB stf sched) as (Hfr & [LS _] & [LV _] & HH & _).
  destruct (bwd_launch v_threshold v_reset T N B sg_fn soft_reset detach_reset
              HB stb sched) as (Hfr' & [LX _] & [LI _] & _).
  fold stf' in Hfr, LS, LV, HH. fold stb' in Hfr', LX, LI.
  split; [done|]. split; [by intros ->|]. split; [|split; [done|]].
  - intros b.
    destruct (decide (b = s_seq_buf)) as [->|?]; [done|].
    destruct (decide (b = v_seq_buf)) as [->|?]; [done|].
    destruct (decide (b = h_seq_buf)) as [->|?]; [|by rewrite Hfr].
    destruct save_intermediates; [by destruct HH|by rewrite HH].
  - intros b.
    destruct (decide (b = grad_x_seq_buf)) as [->|?]; [done|].
    destruct (decide (b = grad_v_init_buf)) as [->|?]; [done|].
    by rewrite Hfr'.
Qed.

(** X7.  Launching a kernel a second time on the buffers the first launch
    left, with another block size and another order of the program
    instances, changes nothing: every buffer is after the second launch
    what it was after the first.  This is what lets the autotuner run its
    configurations one after another on the same arguments. *)
Theorem relaunch_idempotent (v_threshold v_reset : val) (T N B1 B2 : nat)
    (sg_fn : val → val) (soft_reset save_intermediates detach_reset : bool)
    (sched1 sched2 : list nat) (stf stb : state) :
  0 < B1 → 0 < B2 →
  sched1 ≡ₚ seq 0 (cdiv N B1) → sched2 ≡ₚ seq 0 (cdiv N B2) →
  fwd_heap_ok T N save_intermediates stf → bwd_heap_ok T N stb →
  let fwd B sched :=
    exec (launch sched (fwd_kernel v_threshold v_reset T N B soft_reset
                                   save_intermediates)) in
  let bwd B sched :=
    exec (launch sched (bwd_kernel v_threshold v_reset T N B sg_fn soft_reset
                                   detach_reset)) in
  (∀ b, heap (fwd B2 sched2 (fwd B1 sched1 stf)) b
        = heap (fwd B1 sched1 stf) b)
  ∧ (∀ b, heap (bwd B2 sched2 (bwd B1 sched1 stb)) b
          = heap (bwd B1 sched1 stb) b).
Proof.
  intros HB1 HB2 Hp1 Hp2 (_ & _ & Ls & Lv & Lh) (_ & _ & _ & Lx & Li) fwd bwd.
  split.
  - destruct (fwd_launch_full v_threshold v_reset T N B1 soft_reset
                save_intermediates sched1 stf HB1 Hp1 Ls Lv Lh)
      as (HS & HV & HH & Hfr).
    fold (fwd B1 sched1 stf) in HS, HV, HH, Hfr.
    destruct (fwd_launch_full v_threshold v_reset T N B2 soft_reset
                save_intermediates sched2 (fwd B1 sched1 stf) HB2 Hp2)
      as (HS2 & HV2 & HH2 & Hfr2).
    { by rewrite HS, tabulate2_length. }
    { by rewrite HV, tabulate2_length. }
    { intros ->. by rewrite HH, tabulate2_length. }
    fold (fwd B2 sched2 (fwd B1 sched1 stf)) in HS2, HV2, HH2, Hfr2.
    rewrite (Hfr x_seq_buf), (Hfr v_init_buf) in HS2, HV2, HH2 by done.
    intros b.
    destruct (decide (b = s_seq_buf)) as [->|?]; [congruence|].
    destruct (decide (b = v_seq_buf)) as [->|?]; [congruence|].
    destruct (decide (b = h_seq_buf)) as [->|?]; [|by apply Hfr2].
    rewrite HH2. by destruct save_intermediates.
  - destruct (bwd_launch_full v_threshold v_reset T N B1 sg_fn soft_reset
                detach_reset sched1 stb HB1 Hp1 Lx Li) as (HX & HI & Hfr).
    fold (bwd B1 sched1 stb) in HX, HI, Hfr.
    destruct (bwd_launch_full v_threshold v_reset T N B2 sg_fn soft_reset
                detach_reset sched2 (bwd B1 sched1 stb) HB2 Hp2)
      as (HX2 & HI2 & Hfr2).
    { by rewrite HX, tabulate2_length. }
    { rewrite HI, tabulate2_length. lia. }
    fold (bwd B2 sched2 (bwd B1 sched1 stb)) in HX2, HI2, Hfr2.
    rewrite (Hfr grad_s_seq_buf), (Hfr grad_v_seq_buf), (Hfr h_seq_buf)
      in HX2, HI2 by done.
    intros b.
    destruct (decide (b = grad_x_seq_buf)) as [->|?]; [congruence|].
    destruct (decide (b = grad_v_init_buf)) as [->|?]; [congruence|].
    by apply Hfr2.
Qed.

(** X9.  The grid [cdiv(NCL, BLOCK_NCL)] holds exactly the program
    instances whose first channel exists: none of them has an empty block,
    and every channel lies in the block of one of them. *)
Theorem grid_cover (N B : nat) :
  0 < B →
  (∀ pid, pid < cdiv N B ↔ pid * B < N)
  ∧ (∀ n, n < N → n / B < cdiv N B ∧ n / B * B ≤ n < n / B * B + B).
Proof.
  intros HB. split.
  - intros pid. unfold cdiv.
    pose proof (Nat.div_mod_eq (N + B - 1) B).
    pose proof (Nat.mod_upper_bound (N + B - 1) B). split; intros; nia.
  - intros n Hn. split; [by apply channel_in_grid|].
    by apply block_of_channel.
Qed.

End Launches.

Lemma inputs_unchanged_witness :
  let stf' := exec (launch [1; 1; 5]
                      (fwd_kernel (D := Z_dtype) 10%Z 0%Z 2 3 2 false false))
                   Sample.fwd_state in
  let stb' := exec (launch [1; 1; 5]
                      (bwd_kernel (D := Z_dtype) 10%Z 0%Z 2 3 2
                                  (λ x, (x * 2)%Z) false false))
                   Sample.bwd_state in
  (∀ b, b ≠ s_seq_buf → b ≠ v_seq_buf → b ≠ h_seq_buf →
        heap stf' b = heap Sample.fwd_state b)
  ∧ (false = false → heap stf' h_seq_buf = heap Sample.fwd_state h_seq_buf)
  ∧ (∀ b, length (heap stf' b) = length (heap Sample.fwd_state b))
  ∧ (∀ b, b ≠ grad_x_seq_buf → b ≠ grad_v_init_buf →
          heap stb' b = heap Sample.bwd_state b)
  ∧ (∀ b, length (heap stb' b) = length (heap Sample.bwd_state b)).
Proof.
  apply (inputs_unchanged (D := Z_dtype) 10%Z 0%Z 2 3 2 (λ x, (x * 2)%Z)
           false false false [1; 1; 5] Sample.fwd_state Sample.bwd_state).
  lia.
Defined.

Lemma relaunch_idempotent_witness :
  let fwd B sched :=
    exec (launch sched (fwd_kernel (D := Z_dtype) 10%Z 0%Z 2 3 B false true)) in
  let bwd B sched :=
    exec (launch sched (bwd_kernel (D := Z_dtype) 10%Z 0%Z 2 3 B
                                   (λ x, (x * 2)%Z) false false)) in
  (∀ b, heap (fwd 1 [0; 1; 2] (fwd 2 [1; 0] Sample.fwd_state)) b
        = heap (fwd 2 [1; 0] Sample.fwd_state) b)
  ∧ (∀ b, heap (bwd 1 [0; 1; 2] (bwd 2 [1; 0] Sample.bwd_state)) b
          = heap (bwd 2 [1; 0] Sample.bwd_state) b).
Proof.
  apply (relaunch_idempotent (D := Z_dtype) 10%Z 0%Z 2 3 2 1 (λ x, (x * 2)%Z)
           false true false [1; 0] [0; 1; 2] Sample.fwd_state
           Sample.bwd_state).
  - lia.
  - lia.
  - apply perm_swap.
  - reflexivity.
  - repeat split.
  - repeat split.
Defined.

Lemma grid_cover_witness :
  (∀ pid, pid < cdiv 300 128 ↔ pid * 128 < 300)
  ∧ (∀ n, n < 300 →
       n / 128 < cdiv 300 128 ∧ n / 128 * 128 ≤ n < n / 128 * 128 + 128).
Proof. apply (grid_cover 300 128). lia. Defined.

(** ** The host entry points and the op at their edges *)

Section Edges.
Context {D : Dtype}.

Lemma launch_length (v_threshold v_reset : val) (T N B : nat)
    (soft_reset save_intermediates : bool) (sched : list nat) (st : state)
    (b : buffer) :
  0 < B →
  length (heap (exec (launch sched
                        (fwd_kernel v_threshold v_reset T N B soft_reset
                                    save_intermediates)) st) b)
  = length (heap st b).
Proof.
  intros HB.
  destruct (fwd_launch v_threshold v_reset T N B soft_reset save_intermediates
              HB st sched) as (Hfr & [LS _] & [LV _] & HH & _).
  destruct (decide (b = s_seq_buf)) as [->|?]; [done|].
  destruct (decide (b = v_seq_buf)) as [->|?]; [done|].
  destruct (decide (b = h_seq_buf)) as [->|?]; [|by rewrite Hfr].
  destruct save_intermediates; [by destruct HH|by rewrite HH].
Qed.

(** X8.  Whatever the schedule is, the tensors the training entry point
    returns have the shape of [x_seq] and as many elements as that shape
    holds. *)
Theorem forward_shapes (e : launch_env) (x_seq : tensor) (v_init : list val)
    (v_threshold v_reset : val) (soft_reset : bool)
    (s_seq v_seq h_seq : tensor) :
  0 < BLOCK_NCL e →
  multistep_if_forward e x_seq v_init v_threshold v_reset soft_reset
  = Some (s_seq, v_seq, h_seq) →
  (shape0 s_seq, numel0 s_seq) = (shape0 x_seq, numel0 x_seq)
  ∧ (shape0 v_seq, numel0 v_seq) = (shape0 x_seq, numel0 x_seq)
  ∧ (shape0 h_seq, numel0 h_seq) = (shape0 x_seq, numel0 x_seq)
  ∧ wf_tensor s_seq ∧ wf_tensor v_seq ∧ wf_tensor h_seq.
Proof.
  intros HB E. unfold multistep_if_forward, first_numel, first_slice in E.
  destruct (decide (shape0 x_seq = 0)); [done|]. simpl in E.
  injection E as <- <- <-. unfold wf_tensor. simpl.
  pose proof (λ b, launch_length v_threshold v_reset (shape0 x_seq)
                     (numel0 x_seq) (BLOCK_NCL e) soft_reset true
                     (sched e (cdiv (numel0 x_seq) (BLOCK_NCL e)))
                     (State (λ b, match b with
                                  | x_seq_buf => data x_seq
                                  | v_init_buf => v_init
                                  | s_seq_buf =>
                                      empty_data e s_seq_buf
                                        (shape0 x_seq * numel0 x_seq)
                                  | h_seq_buf =>
                                      empty_data e h_seq_buf
                                        (shape0 x_seq * numel0 x_seq)
                                  | v_seq_buf =>
                                      empty_data e v_seq_buf
                                        (shape0 x_seq * numel0 x_seq)
                                  | _ => []
                                  end) []) b HB) as HL.
  unfold fwd_kernel in HL. simpl in HL.
  rewrite !HL, !empty_data_length. done.
Qed.

End Edges.

Lemma forward_shapes_witness :
  (shape0 SampleOut.s_seq, numel0 SampleOut.s_seq)
  = (shape0 Sample.x_seq, numel0 Sample.x_seq)
  ∧ (shape0 SampleOut.v_hard, numel0 SampleOut.v_hard)
    = (shape0 Sample.x_seq, numel0 Sample.x_seq)
  ∧ (shape0 SampleOut.h_hard, numel0 SampleOut.h_hard)
    = (shape0 Sample.x_seq, numel0 Sample.x_seq)
  ∧ wf_tensor SampleOut.s_seq ∧ wf_tensor SampleOut.v_hard
  ∧ wf_tensor SampleOut.h_hard.
Proof.
  apply (forward_shapes (D := Z_dtype) (Sample.env 2 true) Sample.x_seq
           [6; 2; 0]%Z 10%Z 0%Z false).
  - simpl. lia.
  - vm_compute. reflexivity.
Defined.

Section OpEdges.
Context {D : Dtype}.

(** X10.  On an empty time axis every host entry point and the op's
    forward call raise before any launch: they index the first slice of
    their input.  The backward entry point raises as well when only
    [grad_v_seq] is empty. *)
Theorem empty_time_axis_raises (e : launch_env) (ctx : context)
    (x_seq : tensor) (v_init : list val)
    (grad_s_seq grad_v_seq h_seq : tensor)
    (v_threshold v_reset : val) (v_reset_opt : option val)
    (sg_fn : val → val) (soft_reset detach_reset : bool) :
  shape0 x_seq = 0 →
  shape0 grad_s_seq = 0 ∨ shape0 grad_v_seq = 0 →
  multistep_if_forward e x_seq v_init v_threshold v_reset soft_reset = None
  ∧ multistep_if_inference e x_seq v_init v_threshold v_reset soft_reset
    = None
  ∧ forward e ctx x_seq v_init v_threshold v_reset_opt detach_reset sg_fn
    = None
  ∧ multistep_if_backward e grad_s_seq grad_v_seq h_seq v_threshold v_reset
                          sg_fn soft_reset detach_reset
    = None.
Proof.
  intros HT Hg.
  split; [by apply entry_points_empty|]. split; [by apply entry_points_empty|].
  split.
  - unfold forward. destruct (existsb id (needs_input_grad ctx)).
    + by rewrite (proj1 (entry_points_empty _ _ _ _ _ _ HT)).
    + by rewrite (proj2 (entry_points_empty _ _ _ _ _ _ HT)).
  - unfold multistep_if_backward, first_numel, first_slice.
    destruct (decide (shape0 grad_s_seq = 0)); [done|]. simpl.
    destruct Hg as [?|Hv]; [done|]. by rewrite decide_True.
Qed.

(** X11.  With no channels the grid is empty, no program instance runs,
    and the training entry point returns three tensors without
    elements. *)
Theorem no_channels (e : launch_env) (x_seq : tensor) (v_init : list val)
    (v_threshold v_reset : val) (soft_reset : bool) :
  env_ok e → shape0 x_seq ≠ 0 → numel0 x_seq = 0 →
  cdiv (numel0 x_seq) (BLOCK_NCL e) = 0
  ∧ sched e (cdiv (numel0 x_seq) (BLOCK_NCL e)) = []
  ∧ multistep_if_forward e x_seq v_init v_threshold v_reset soft_reset
    = Some (Tensor (shape0 x_seq) 0 [], Tensor (shape0 x_seq) 0 [],
            Tensor (shape0 x_seq) 0 []).
Proof.
  intros He HT HN.
  assert (cdiv (numel0 x_seq) (BLOCK_NCL e) = 0) as Hg.
  { rewrite HN. unfold cdiv. apply Nat.div_small. destruct He. lia. }
  split; [done|]. split.
  - rewrite Hg. apply Permutation_nil_r. apply He.
  - rewrite multistep_if_forward_eq by done. rewrite HN.
    unfold tabulate2. by rewrite Nat.mul_0_r.
Qed.

(** X12.  A backward call after a forward call that needed no gradient
    raises: that forward call ran the inference variant and saved nothing,
    so [ctx.saved_tensors[0]] does not exist. *)
Theorem backward_after_inference_raises (e e' : launch_env) (ctx : context)
    (x_seq : tensor) (v_init : list val) (v_threshold : val)
    (v_reset : option val) (detach_reset : bool) (sg_fn : val → val)
    (s_seq v_seq : tensor) (ctx' : context) (grad_s_seq grad_v_seq : tensor) :
  existsb id (needs_input_grad ctx) = false →
  saved_tensors ctx = [] →
  forward e ctx x_seq v_init v_threshold v_reset detach_reset sg_fn
  = Some (s_seq, v_seq, ctx') →
  backward e' ctx' grad_s_seq grad_v_seq = None.
Proof.
  intros Hgrad Hsaved E. unfold forward in E. rewrite Hgrad in E.
  destruct (multistep_if_inference _ _ _ _ _ _) as [[??]|]; [|done].
  simpl in E. injection E as _ _ <-.
  unfold backward. by rewrite Hsaved.
Qed.

(** X13.  The [S] and [V] the op's forward call returns do not depend on
    the context it is given (which inputs need a gradient, what an earlier
    call left in it), nor on [detach_reset], nor on [sg_fn]. *)
Theorem op_outputs_independent (e : launch_env) (ctx ctx' : context)
    (x_seq : tensor) (v_init : list val) (v_threshold : val)
    (v_reset : option val) (detach_reset detach_reset' : bool)
    (sg_fn sg_fn' : val → val) :
  env_ok e →
  (λ r, (r.1.1, r.1.2))
    <$> forward e ctx x_seq v_init v_threshold v_reset detach_reset sg_fn
  = (λ r, (r.1.1, r.1.2))
      <$> forward e ctx' x_seq v_init v_threshold v_reset detach_reset' sg_fn'.
Proof.
  intros He. unfold forward.
  destruct (decide (shape0 x_seq = 0)) as [HT|HT].
  - rewrite (proj1 (entry_points_empty _ _ _ _ _ _ HT)),
      (proj2 (entry_points_empty _ _ _ _ _ _ HT)).
    by destruct (existsb id _), (existsb id _).
  - rewrite multistep_if_forward_eq, multistep_if_inference_eq by done.
    by destruct (existsb id _), (existsb id _).
Qed.

End OpEdges.

Module SampleEdge.

Definition empty_time : tensor (D := Z_dtype) := Tensor 0 3 [].
Definition no_channel : tensor (D := Z_dtype) := Tensor 2 0 [].
Definition ctx_no_grad : context (D := Z_dtype) :=
  Context [false; false; false; false; false; false] [] None None None None
          None.

End SampleEdge.

Lemma empty_time_axis_raises_witness :
  multistep_if_forward (Sample.env 2 true) SampleEdge.empty_time [6; 2; 0]%Z
                       10%Z 0%Z false
  = None
  ∧ multistep_if_inference (Sample.env 2 true) SampleEdge.empty_time
                           [6; 2; 0]%Z 10%Z 0%Z false
    = None
  ∧ forward (Sample.env 2 true) Sample.ctx0 SampleEdge.empty_time [6; 2; 0]%Z
            10%Z (Some 0%Z) false (λ x, (x * 2)%Z)
    = None
  ∧ multistep_if_backward (Sample.env 2 true) Sample.grad_s_seq
                          SampleEdge.empty_time Sample.h_seq 10%Z 0%Z
                          (λ x, (x * 2)%Z) false false
    = None.
Proof.
  apply (empty_time_axis_raises (D := Z_dtype)).
  - reflexivity.
  - right. reflexivity.
Defined.

Lemma no_channels_witness :
  cdiv (numel0 SampleEdge.no_channel) (BLOCK_NCL (Sample.env 2 true)) = 0
  ∧ sched (Sample.env 2 true)
          (cdiv (numel0 SampleEdge.no_channel) (BLOCK_NCL (Sample.env 2 true)))
    = []
  ∧ multistep_if_forward (Sample.env 2 true) SampleEdge.no_channel []
                         10%Z 0%Z false
    = Some (Tensor (shape0 SampleEdge.no_channel) 0 [],
            Tensor (shape0 SampleEdge.no_channel) 0 [],
            Tensor (shape0 SampleEdge.no_channel) 0 []).
Proof.
  apply (no_channels (D := Z_dtype)).
  - apply Sample.env_ok_env. lia.
  - simpl. lia.
  - reflexivity.
Defined.

Lemma backward_after_inference_raises_witness :
  backward (Sample.env 1 false) SampleEdge.ctx_no_grad Sample.grad_s_seq
           Sample.grad_v_seq
  = None.
Proof.
  apply (backward_after_inference_raises (D := Z_dtype) (Sample.env 2 true)
           (Sample.env 1 false) SampleEdge.ctx_no_grad Sample.x_seq
           [6; 2; 0]%Z 10%Z None true (λ x, (x * 2)%Z)
           SampleOut.s_seq SampleOut.v_soft).
  - reflexivity.
  - reflexivity.
  - vm_compute. reflexivity.
Defined.

Lemma op_outputs_independent_witness :
  (λ r, (r.1.1, r.1.2))
    <$> forward (Sample.env 2 true) Sample.ctx0 Sample.x_seq [6; 2; 0]%Z
                10%Z None true (λ x, (x * 2)%Z)
  = (λ r, (r.1.1, r.1.2))
      <$> forward (Sample.env 2 true) SampleEdge.ctx_no_grad Sample.x_seq
                  [6; 2; 0]%Z 10%Z None false (λ x, (x * 3)%Z).
Proof.
  apply (op_outputs_independent (D := Z_dtype)).
  apply Sample.env_ok_env. lia.
Defined.

(** ** Zero gradients, and the autotuner's configurations *)

(** The configurations [triton.autotune] tries for both kernels:
    [BLOCK_NCL = f * w * 32] with [num_warps = w], for [f] in [1, 2] and
    [w] in [4, 8]. *)
Record config := Config {
  cfg_BLOCK_NCL : nat;
  cfg_num_warps : nat;
}.

Definition autotune_configs : list config :=
  f ← [1; 2]; w ← [4; 8]; [Config (f * w * 32) w].

Section Gradients.
Context {D : Dtype}.







(** X15.  Every configuration of the autotuner has a block size among
    128, 256 and 512, and whichever two of them the two kernels are run
    with, the entry points return the same tensors. *)
Theorem autotune_configs_agree (c c' : config)
    (sched sched' : nat → list nat) (uninit uninit' : buffer → nat → val)
    (x_seq : tensor) (v_init : list val)
    (grad_s_seq grad_v_seq h_seq : tensor) (v_threshold v_reset : val)
    (sg_fn : val → val) (soft_reset detach_reset : bool) :
  c ∈ autotune_configs → c' ∈ autotune_configs →
  (∀ grid, sched grid ≡ₚ seq 0 grid) → (∀ grid, sched' grid ≡ₚ seq 0 grid) →
  shape0 x_seq ≠ 0 → shape0 grad_s_seq ≠ 0 → shape0 grad_v_seq ≠ 0 →
  wf_tensor grad_v_seq → numel0 grad_v_seq = numel0 grad_s_seq →
  let e := LaunchEnv (cfg_BLOCK_NCL c) sched uninit in
  let e' := LaunchEnv (cfg_BLOCK_NCL c') sched' uninit' in
  cfg_BLOCK_NCL c ∈ [128; 256; 512]
  ∧ multistep_if_forward e x_seq v_init v_threshold v_reset soft_reset
    = multistep_if_forward e' x_seq v_init v_threshold v_reset soft_reset
  ∧ multistep_if_backward e grad_s_seq grad_v_seq h_seq v_threshold v_reset
                          sg_fn soft_reset detach_reset
    = multistep_if_backward e' grad_s_seq grad_v_seq h_seq v_threshold v_reset
                            sg_fn soft_reset detach_reset.
Proof.
  intros Hc Hc' Hs Hs' HT HTs HTv Hwf HN e e'.
  assert (∀ c, c ∈ autotune_configs →
               cfg_BLOCK_NCL c ∈ [128; 256; 512] ∧ 0 < cfg_BLOCK_NCL c) as Hcfg.
  { intros c0 H0. vm_compute in H0.
    repeat (apply elem_of_cons in H0 as [->|H0]); simpl;
      [split; [repeat constructor|lia]..|by apply elem_of_nil in H0]. }
  destruct (Hcfg c Hc) as [Hin HB], (Hcfg c' Hc') as [_ HB'].
  assert (env_ok e) as He by done. assert (env_ok e') as He' by done.
  split; [done|]. split.
  - by rewrite !multistep_if_forward_eq.
  - by rewrite !multistep_if_backward_eq.
Qed.

End Gradients.

Module SampleZero.


End SampleZero.



Lemma autotune_configs_agree_witness :
  let e := LaunchEnv (D := Z_dtype) (cfg_BLOCK_NCL (Config 128 4))
                     (λ grid, seq 0 grid) (λ _ _, 7%Z) in
  let e' := LaunchEnv (D := Z_dtype) (cfg_BLOCK_NCL (Config 512 8))
                      (λ grid, reverse (seq 0 grid)) (λ _ _, 9%Z) in
  cfg_BLOCK_NCL (Config 128 4) ∈ [128; 256; 512]
  ∧ multistep_if_forward e Sample.x_seq [6; 2; 0]%Z 10%Z 0%Z false
    = multistep_if_forward e' Sample.x_seq [6; 2; 0]%Z 10%Z 0%Z false
  ∧ multistep_if_backward e Sample.grad_s_seq Sample.grad_v_seq Sample.h_seq
                          10%Z 0%Z (λ x, (x * 2)%Z) false false
    = multistep_if_backward e' Sample.grad_s_seq Sample.grad_v_seq
                            Sample.h_seq 10%Z 0%Z (λ x, (x * 2)%Z) false false.
Proof.
  apply (autotune_configs_agree (D := Z_dtype) (Config 128 4) (Config 512 8)).
  - repeat constructor.
  - repeat constructor.
  - done.
  - intros grid. apply reverse_Permutation.
  - simpl. lia.
  - simpl. lia.
  - simpl. lia.
  - reflexivity.
  - reflexivity.
Defined.
